(** * Dealer review dashboard (dashboard.py): a shallow embedding

    The dashboard loads dealer records into a table, fills in missing
    coordinates through a memoised geocoding call, and derives filtered
    views, aggregates and sentiment tallies from it.

    Conventions of the embedding:
    - Python floats are Rocq's primitive binary64 floats, so NaN and the
      comparison rules are the ones the interpreter applies;
    - the table [df] is a list of rows in index order;
    - absent values ([None], or NaN in a coordinate column) are [None];
    - external services are section variables, and every call to them is
      recorded in an explicit world state;
    - an uncaught Python exception is a separate outcome of the function
      that raises it. *)

From Stdlib Require Import Floats ZArith QArith List String Bool Lia.
From Stdlib Require Import DecimalString Permutation Sorted.
Import ListNotations.

Local Open Scope string_scope.
Local Open Scope list_scope.

Set Warnings "-inexact-float".

(* ================================================================== *)
(** * Data model *)

(** A calendar date as produced by the sidebar's date pickers. *)
Record date := mkdate { dyear : Z; dmonth : Z; dday : Z }.

(** One row of [df], built from one dealer of the input file (lines 26-38). *)
Record row := mkrow {
  Dealer : string;
  Rating : float;
  Total_Reviews : Z;
  Province : string;
  PostalCode : option string;
  Latitude : option float;
  Longitude : option float;
  ReviewTime : list Z
}.

Definition DataFrame := list row.

(** The selectbox entry that stands for "no dealer restriction". *)
Definition All_Dealers : string := "All Dealers".

(* ================================================================== *)
(** * Filter engine: [filter_data] (lines 117-125) *)

Module Filter.

(** [Series.isin]: membership of a string in the list of selected values. *)
Definition isin (s : string) (values : list string) : bool :=
  existsb (String.eqb s) values.

(** The boolean mask of the first selection: the two rating comparisons and
    the province membership, combined with [&]. *)
Definition mask (provinces : list string) (ratings : float * float) (r : row) : bool :=
  ((fst ratings <=? Rating r)%float && (Rating r <=? snd ratings)%float)
  && isin (Province r) provinces.

(** [filter_data]: the table is an explicit argument (the source reads the
    global [df]); [start_date] and [end_date] are parameters of the source
    function as well. *)
Definition filter_data (df : DataFrame) (start_date end_date : date)
    (provinces : list string) (ratings : float * float) (dealer : string)
    : DataFrame :=
  let filtered := filter (mask provinces ratings) df in
  if negb (String.eqb dealer All_Dealers)
  then filter (fun r => String.eqb (Dealer r) dealer) filtered
  else filtered.

(** The predicate the specification words: rating inside the closed range,
    province among the allowed ones and, unless the dealer criterion is the
    sentinel, the very same name. *)
Definition spec_matches (provinces : list string) (low high : float) (dealer : string)
    (r : row) : Prop :=
  ((low <=? Rating r)%float = true /\ (Rating r <=? high)%float = true)
  /\ In (Province r) provinces
  /\ (dealer <> All_Dealers -> Dealer r = dealer).

(** Its decision procedure, one conjunctive test per row. *)
Definition spec_matchesb (provinces : list string) (low high : float) (dealer : string)
    (r : row) : bool :=
  ((low <=? Rating r)%float && (Rating r <=? high)%float)
  && isin (Province r) provinces
  && (String.eqb dealer All_Dealers || String.eqb (Dealer r) dealer).

End Filter.

(* ================================================================== *)
(** * Sentiment classifier: [analyze_sentiment] (lines 104-114) *)

Module Sentiment.

Inductive label := Positive | Neutral | Negative.

(** The dictionary [sentiment_summary], whose three keys are fixed. *)
Record summary := mksummary { n_positive : nat; n_neutral : nat; n_negative : nat }.

Definition empty_summary : summary := mksummary 0 0 0.

(** The bucket selected by the [if]/[elif]/[else] of the loop body. *)
Definition classify_polarity (polarity : float) : label :=
  if (0.2 <? polarity)%float then Positive
  else if (polarity <? -0.2)%float then Negative
  else Neutral.

(** [sentiment_summary[label] += 1]. *)
Definition bump (l : label) (s : summary) : summary :=
  match l with
  | Positive => mksummary (S (n_positive s)) (n_neutral s) (n_negative s)
  | Neutral => mksummary (n_positive s) (S (n_neutral s)) (n_negative s)
  | Negative => mksummary (n_positive s) (n_neutral s) (S (n_negative s))
  end.

Definition label_eqb (a b : label) : bool :=
  match a, b with
  | Positive, Positive | Neutral, Neutral | Negative, Negative => true
  | _, _ => false
  end.

Section WithScorer.

(** [TextBlob(review).sentiment.polarity], an external lexical scorer. *)
Variable polarity : string -> float.

Definition classify (review : string) : label := classify_polarity (polarity review).

Definition analyze_sentiment (reviews : list string) : summary :=
  fold_left (fun s review => bump (classify review) s) reviews empty_summary.

(** The number of reviews that [classify] sends to a given bucket. *)
Definition classified (l : label) (reviews : list string) : nat :=
  List.length (filter (fun review => label_eqb (classify review) l) reviews).

End WithScorer.

End Sentiment.

(* ================================================================== *)
(** * Outcomes of effectful code *)

(** The exceptions that can escape the modelled functions. *)
Inductive exn :=
| RequestException      (* requests: the transport failed *)
| JSONDecodeError       (* response.json(): the body is not JSON *)
| OutOfBoundsDatetime.  (* pandas: a timestamp outside datetime64[ns] *)

Inductive outcome (A : Type) :=
| Returned (a : A)
| Raised (e : exn).

Arguments Returned {A} a.
Arguments Raised {A} e.

(* ================================================================== *)
(** * Time-bounded memoisation: [cachetools.TTLCache] and [cached] *)

Module Cachetools.

Definition Qltb (x y : Q) : bool := negb (Qle_bool y x).

Section Cache.

Variables K V : Type.
Variable K_eqb : K -> K -> bool.

(** The two constructor arguments of the cache. *)
Variable maxsize : nat.
Variable ttl : Q.

(** One cached item with the clock reading at which it stops being valid. *)
Record link := mklink { l_key : K; l_value : V; l_expires : Q }.

(** The items, least recently used first. *)
Definition TTLCache := list link.

Definition has_key (k : K) (l : link) : bool := K_eqb (l_key l) k.

(** [expire(time)]: items whose expiry is not after [time] are dropped. *)
Definition expire (time : Q) (c : TTLCache) : TTLCache :=
  filter (fun l => Qltb time (l_expires l)) c.

(** [move_to_end(key)] of the ordered table. *)
Definition move_to_end (k : K) (c : TTLCache) : TTLCache :=
  filter (fun l => negb (has_key k l)) c ++ filter (has_key k) c.

(** [cache[key]] at clock reading [time]: [None] is a [KeyError], raised
    for an unknown key and for an expired item alike. The lookup marks the
    item as most recently used. *)
Definition getitem (time : Q) (k : K) (c : TTLCache) : option V * TTLCache :=
  match find (has_key k) c with
  | None => (None, c)
  | Some l =>
      if Qltb time (l_expires l) then (Some (l_value l), move_to_end k c)
      else (None, move_to_end k c)
  end.

(** The eviction loop of [Cache.__setitem__] for an item of size one:
    while the table is too full for one more item, [popitem()] removes the
    least recently used one. *)
Fixpoint make_room (c : TTLCache) : TTLCache :=
  match c with
  | [] => []
  | _ :: tl => if (maxsize <? List.length c + 1)%nat then make_room tl else c
  end.

(** [cache[key] = value] at clock reading [time]. Expired items go first;
    a table of capacity zero then refuses the item ([ValueError], which
    the decorator swallows); otherwise room is made when the key is new,
    and the item is stored as most recently used with expiry [time + ttl]. *)
Definition setitem (time : Q) (k : K) (v : V) (c : TTLCache) : TTLCache :=
  let live := expire time c in
  if (maxsize <? 1)%nat then live
  else
    let kept := if existsb (has_key k) live then live else make_room live in
    filter (fun l => negb (has_key k l)) kept ++ [mklink k v (time + ttl)].

End Cache.

Arguments mklink {K V}.
Arguments l_key {K V}.
Arguments l_value {K V}.
Arguments l_expires {K V}.
Arguments has_key {K V}.
Arguments expire {K V}.
Arguments move_to_end {K V}.
Arguments getitem {K V}.
Arguments make_room {K V}.
Arguments setitem {K V}.

End Cachetools.

(* ================================================================== *)
(** * Geocoding cache: [geocode_postal_code] (lines 41-57) *)

Module Geocode.

Import Cachetools.

(** The argument of the call: the row's postal code, possibly absent. *)
Definition postal := option string.

Definition postal_eqb (a b : postal) : bool :=
  match a, b with
  | None, None => true
  | Some x, Some y => String.eqb x y
  | _, _ => false
  end.

(** The pair the function returns: [(lat, lng)] or [(None, None)]. *)
Definition coords : Type := option float * option float.

Definition NotFound : coords := (None, None).

(** What [requests.get(...).json()] yields: an exception, or the decoded
    body with its [status] and the locations of its [results]. *)
Inductive api_reply :=
| ApiFailure (e : exn)
| ApiBody (status : string) (results : list (float * float)).

(** The process-wide state the function touches: the cache declared on
    line 41 and the log of requests sent to the geocoding service. *)
Record world := mkworld {
  cache : TTLCache postal coords;
  requests : list postal
}.

(** [cache = TTLCache(maxsize=100, ttl=86400)], empty at start. *)
Definition cache_maxsize : nat := 100.
Definition cache_ttl : Q := 86400.
Definition initial_cache : TTLCache postal coords := [].

Definition initial_world : world := mkworld initial_cache [].

(** Lines 53-57: the decision taken on a decoded body. *)
Definition locate (status : string) (results : list (float * float)) : coords :=
  match results with
  | (lat, lng) :: _ => if String.eqb status "OK" then (Some lat, Some lng) else NotFound
  | [] => NotFound
  end.

Section WithService.

(** The geocoding service: its answer to a postal code may depend on how
    many requests were sent before. *)
Variable geocoding_api : nat -> postal -> api_reply.

(** The decorated function. [t_get] and [t_set] are the clock readings of
    the cache lookup and of the store that follows a miss. A value is
    stored only when the body returns; an exception leaves the table as
    the lookup left it. *)
Definition geocode_postal_code (t_get t_set : Q) (postal_code : postal) (w : world)
    : outcome coords * world :=
  match getitem postal_eqb t_get postal_code (cache w) with
  | (Some v, c) => (Returned v, mkworld c (requests w))
  | (None, c) =>
      let sent := requests w ++ [postal_code] in
      match geocoding_api (List.length (requests w)) postal_code with
      | ApiFailure e => (Raised e, mkworld c sent)
      | ApiBody status results =>
          let v := locate status results in
          (Returned v,
           mkworld (setitem postal_eqb cache_maxsize cache_ttl t_set postal_code v c) sent)
      end
  end.

(** ** The enrichment loop (lines 59-64) *)

(** The clock readings available to the call made for the row at a given
    position. *)
Variable clock : nat -> Q * Q.

Definition isna (x : option float) : bool :=
  match x with None => true | Some _ => false end.

Definition set_coords (v : coords) (r : row) : row :=
  mkrow (Dealer r) (Rating r) (Total_Reviews r) (Province r) (PostalCode r)
        (fst v) (snd v) (ReviewTime r).

(** One iteration: the row after it, the world after it, and whether the
    iteration raised. *)
Definition enrich_row (index : nat) (r : row) (w : world) : outcome row * world :=
  if isna (Latitude r) then
    match geocode_postal_code (fst (clock index)) (snd (clock index)) (PostalCode r) w with
    | (Returned v, w') => (Returned (set_coords v r), w')
    | (Raised e, w') => (Raised e, w')
    end
  else (Returned r, w).

(** The loop over the rows from position [index] on. The table it yields
    is the table as the loop leaves it: complete when the loop ends, and
    with the remaining rows untouched when an iteration raises. *)
Fixpoint enrich_from (index : nat) (rows : DataFrame) (w : world)
    : DataFrame * world * option exn :=
  match rows with
  | [] => ([], w, None)
  | r :: rest =>
      match enrich_row index r w with
      | (Returned r', w') =>
          let '(rest', w'', e) := enrich_from (S index) rest w' in
          (r' :: rest', w'', e)
      | (Raised e, w') => (r :: rest, w', Some e)
      end
  end.

Definition enrich (df : DataFrame) (w : world) : DataFrame * world * option exn :=
  enrich_from 0 df w.

End WithService.

(** What one iteration may do to a row. *)
Definition row_kept_or_geocoded (r r' : row) : Prop :=
  r' = r \/ (isna (Latitude r) = true /\ exists v, r' = set_coords v r).

(** The requests that a run may add to the log: postal codes of rows
    without latitude, at most one per such row. *)
Definition sent_for (rows : DataFrame) (sent : list postal) : Prop :=
  Forall (fun pc => exists r, In r rows /\ isna (Latitude r) = true /\ PostalCode r = pc) sent
  /\ (List.length sent <= List.length (filter (fun r => isna (Latitude r)) rows))%nat.

End Geocode.

(* ================================================================== *)
(** * Live refresh: [fetch_live_reviews] (lines 67-101) *)

Module LiveRefresh.

(** A dealer dictionary, reduced to the keys the function reads or writes.
    Dealers come from the decoded input file, so the elements of the list
    are distinct objects and are modelled as values. *)
Record dealer := mkdealer {
  actual_name : string;
  place_id : option string;
  d_Rating : option float;
  d_Total_Reviews : option Z;
  d_Reviews : list string;
  Status : option string
}.

(** The [result] object of a place-details body. *)
Record details := mkdetails {
  rating : option float;
  user_ratings_total : option Z;
  reviews : list string
}.

(** [response.json()]: a decoding error, or the body, whose [result] is
    [None] when the key is absent or the object is empty. *)
Inductive body :=
| NotJson
| Json (result : option details).

(** [requests.get(url, params=params)]. *)
Inductive http_reply :=
| HttpFailure (e : exn)
| HttpResponse (status_code : Z) (b : body).

(** Truth value of [place_id]: absent and empty identifiers are false. *)
Definition usable_place_id (d : dealer) : option string :=
  match place_id d with
  | Some "" => None
  | other => other
  end.

Definition set_status (s : string) (d : dealer) : dealer :=
  mkdealer (actual_name d) (place_id d) (d_Rating d) (d_Total_Reviews d) (d_Reviews d) (Some s).

Definition apply_details (r : details) (d : dealer) : dealer :=
  mkdealer (actual_name d) (place_id d) (rating r) (user_ratings_total r) (reviews r)
           (Some "Updated").

(** [f"Failed: {response.status_code}"]. *)
Definition failed_with (status_code : Z) : string :=
  "Failed: " ++ NilZero.string_of_int (Z.to_int status_code).

(** Lines 87-97: what a delivered response does to the dealer. *)
Definition absorb (status_code : Z) (b : body) (d : dealer) : outcome dealer :=
  if (status_code =? 200)%Z then
    match b with
    | NotJson => Raised JSONDecodeError
    | Json (Some r) => Returned (apply_details r d)
    | Json None => Returned (set_status "Failed: No Results" d)
    end
  else Returned (set_status (failed_with status_code) d).

Section WithService.

(** The place-details service: its answer to a place identifier may depend
    on how many requests were sent before. *)
Variable places_api : nat -> string -> http_reply.

(** The loop of lines 71-99 with the list built so far threaded through;
    [sent] is the log of place identifiers requested. *)
Fixpoint refresh_loop (dealers updated_dealers : list dealer) (sent : list string)
    : outcome (list dealer) * list string :=
  match dealers with
  | [] => (Returned updated_dealers, sent)
  | d :: rest =>
      match usable_place_id d with
      | None =>
          refresh_loop rest (updated_dealers ++ [set_status "Failed: No Place ID" d]) sent
      | Some pid =>
          let sent' := sent ++ [pid] in
          match places_api (List.length sent) pid with
          | HttpFailure e => (Raised e, sent')
          | HttpResponse status_code b =>
              match absorb status_code b d with
              | Returned d' => refresh_loop rest (updated_dealers ++ [d']) sent'
              | Raised e => (Raised e, sent')
              end
          end
      end
  end.

Definition fetch_live_reviews (dealers : list dealer) : outcome (list dealer) * list string :=
  refresh_loop dealers [] [].



End WithService.

End LiveRefresh.

(* ================================================================== *)
(** * Aggregation: [national_overview] (lines 147-158) and
      [review_trends] (lines 183-197) *)

Module Aggregator.

(** ** Mean of a float column *)

(** The row count as a float, as the division converts it. *)
Definition float_of_count (n : nat) : float :=
  PrimFloat.of_uint63 (Uint63.of_Z (Z.of_nat n)).

(** [Series.mean()] with its default [skipna=True]: NaN entries are left
    out of both the sum and the count, and a column with nothing to
    average has mean NaN. The sum is taken in column order. *)
Definition accumulate (acc : float * nat) (x : float) : float * nat :=
  if is_nan x then acc else ((fst acc + x)%float, S (snd acc)).

Definition mean (values : list float) : float :=
  let acc := fold_left accumulate values (0%float, 0%nat) in
  match snd acc with
  | O => nan
  | S _ => (fst acc / float_of_count (snd acc))%float
  end.

(** The arithmetic mean as the specification words it: the sum of the
    values over their number, undefined (NaN) when there is none. *)
Definition dropna (values : list float) : list float :=
  filter (fun x => negb (is_nan x)) values.


(** The three metrics of the overview; the average is the value that the
    source then prints with two decimals. *)
Record metrics := mkmetrics {
  total_dealers : nat;
  average_rating : float;
  total_reviews : Z
}.

Definition national_overview (filtered_df : DataFrame) : metrics :=
  mkmetrics (List.length filtered_df)
            (mean (map Rating filtered_df))
            (fold_left Z.add (map Total_Reviews filtered_df) 0%Z).

(** ** Calendar conversion *)

Local Open Scope Z_scope.

(** Bounds of [datetime64[ns]] in whole seconds: [pd.to_datetime] raises
    outside of them. *)
Definition max_seconds : Z := 9223372036.

Definition representable (t : Z) : bool :=
  (- max_seconds <=? t) && (t <=? max_seconds).

(** [pd.to_datetime(review_times, unit="s")]. *)
Definition to_datetime (review_times : list Z) : outcome (list Z) :=
  if forallb representable review_times then Returned review_times
  else Raised OutOfBoundsDatetime.

Definition is_leapyear (year : Z) : bool :=
  (year mod 4 =? 0) && (negb (year mod 100 =? 0) || (year mod 400 =? 0)).

(** Year and zero-based day of the year of a day count since 1970-01-01,
    by 400-, 100-, 4- and 1-year cycles counted from the year 2000. *)
Definition days_to_yearsdays (days : Z) : Z * Z :=
  let days := days - (365 * 30 + 7) in
  let year := 400 * (days / 146097) in
  let days := days mod 146097 in
  let '(year, days) :=
    if 366 <=? days then
      let year := year + 100 * ((days - 1) / 36524) in
      let days := (days - 1) mod 36524 in
      if 365 <=? days then
        let year := year + 4 * ((days + 1) / 1461) in
        let days := (days + 1) mod 1461 in
        if 366 <=? days then (year + (days - 1) / 365, (days - 1) mod 365)
        else (year, days)
      else (year, days)
    else (year, days) in
  (year + 2000, days).

Definition month_lengths (leap : bool) : list Z :=
  [31; if leap then 29 else 28; 31; 30; 31; 30; 31; 31; 30; 31; 30; 31].

(** Walk the month table: the month (from [month] on) that holds the
    zero-based day [days]. *)
Fixpoint month_of_yearday (lengths : list Z) (month days : Z) : Z :=
  match lengths with
  | [] => month
  | len :: rest => if days <? len then month else month_of_yearday rest (month + 1) (days - len)
  end.

(** Calendar year and month (1 to 12) of an epoch second. *)
Definition year_month_of_epoch (t : Z) : Z * Z :=
  let '(year, yday) := days_to_yearsdays (t / 86400) in
  (year, month_of_yearday (month_lengths (is_leapyear year)) 1 yday).

(** A monthly period is stored as its ordinal: months since 1970-01. *)
Abbreviation period := Z (only parsing).

Definition period_of (year month : Z) : period := (year - 1970) * 12 + (month - 1).

Definition period_year (p : period) : Z := 1970 + p / 12.
Definition period_month (p : period) : Z := p mod 12 + 1.

(** [.dt.to_period("M")] of one timestamp. *)
Definition to_period_M (t : Z) : period :=
  let '(year, month) := year_month_of_epoch t in period_of year month.

(** ** The calendar, as the specification understands it *)

(** Leap years among the years 1 to [year]. *)
Definition leap_years_through (year : Z) : Z := year / 4 - year / 100 + year / 400.

(** Days from 1970-01-01 to the first day of [year]. *)
Definition days_before_year (year : Z) : Z :=
  365 * (year - 1970) + (leap_years_through (year - 1) - leap_years_through 1969).

Definition year_length (year : Z) : Z := if is_leapyear year then 366 else 365.

Definition month_length (leap : bool) (month : Z) : Z :=
  nth (Z.to_nat (month - 1)) (month_lengths leap) 0.

(** Days from the first day of the year to the first day of [month]. *)
Definition days_before_month (leap : bool) (month : Z) : Z :=
  fold_right Z.add 0 (firstn (Z.to_nat (month - 1)) (month_lengths leap)).

(** Days from 1970-01-01 to the first day of [month] of [year]. *)
Definition month_start (year month : Z) : Z :=
  days_before_year year + days_before_month (is_leapyear year) month.

(** The epoch second at which a monthly period begins. *)
Definition period_start (p : period) : Z :=
  86400 * month_start (period_year p) (period_month p).

(** ** Counting and ordering *)

(** Add one occurrence of [p] to a table of counts. *)
Fixpoint tally (p : period) (counts : list (period * nat)) : list (period * nat) :=
  match counts with
  | [] => [(p, 1%nat)]
  | (q, n) :: rest => if p =? q then (q, S n) :: rest else (q, n) :: tally p rest
  end.

Fixpoint insert_by_count (e : period * nat) (sorted : list (period * nat)) :=
  match sorted with
  | [] => [e]
  | e' :: rest =>
      if (snd e' <? snd e)%nat then e :: sorted else e' :: insert_by_count e rest
  end.

(** [Series.value_counts()]: one entry per distinct value, most frequent
    first. *)
Definition value_counts (values : list period) : list (period * nat) :=
  fold_right insert_by_count [] (fold_left (fun counts p => tally p counts) values []).

Fixpoint insert_by_index (e : period * nat) (sorted : list (period * nat)) :=
  match sorted with
  | [] => [e]
  | e' :: rest =>
      if fst e <=? fst e' then e :: sorted else e' :: insert_by_index e rest
  end.

(** [Series.sort_index()]: ascending by period. *)
Definition sort_index (counts : list (period * nat)) : list (period * nat) :=
  fold_right insert_by_index [] counts.

(** The count a table holds for a period; absent periods count zero. *)
Definition count_of (p : period) (counts : list (period * nat)) : nat :=
  match find (fun e => fst e =? p) counts with
  | Some e => snd e
  | None => 0%nat
  end.

(** The periods of a table, in table order, and tables in ascending
    period order. *)
Definition keys (counts : list (period * nat)) : list period := map fst counts.

Definition ascending (counts : list (period * nat)) : Prop :=
  StronglySorted Z.le (keys counts).

(** ** [review_trends] *)

(** What the tab shows: the line chart of the counts, or a notice. *)
Inductive trend_view :=
| LineChart (review_counts : list (period * nat))
| Notice (message : string).

(** Lines 186-189: the loop that collects the timestamps. *)
Definition collect_review_times (filtered_df : DataFrame) : list Z :=
  fold_left (fun review_times review_list =>
               match review_list with
               | [] => review_times
               | _ :: _ => review_times ++ review_list
               end)
            (map ReviewTime filtered_df) [].

Definition review_trends (filtered_df : DataFrame) : outcome trend_view :=
  let review_times := collect_review_times filtered_df in
  match review_times with
  | [] => Returned (Notice "No review trends available for the selected filters.")
  | _ :: _ =>
      match to_datetime review_times with
      | Raised e => Raised e
      | Returned review_dates =>
          Returned (LineChart (sort_index (value_counts (map to_period_M review_dates))))
      end
  end.

(** The mapping from period to count that a view displays. *)
Definition trend_of (v : trend_view) : list (period * nat) :=
  match v with
  | LineChart review_counts => review_counts
  | Notice _ => []
  end.

End Aggregator.

(* ================================================================== *)
(** * The shape of a cache *)

Module CacheShape.

Import Cachetools.

(** The keys of the items, least recently used first. *)
Definition keys {K V : Type} (c : TTLCache K V) : list K := map l_key c.

(** At most one item per key, and no more items than the capacity. *)
Definition well_formed {K V : Type} (maxsize : nat) (c : TTLCache K V) : Prop :=
  NoDup (keys c) /\ (List.length c <= maxsize)%nat.

(** Coordinates that are both present or both absent. *)
Definition paired (v : Geocode.coords) : Prop :=
  Geocode.isna (fst v) = Geocode.isna (snd v).

Definition values_paired (c : TTLCache Geocode.postal Geocode.coords) : Prop :=
  Forall (fun l => paired (l_value l)) c.

Definition row_paired (r : row) : Prop :=
  Geocode.isna (Latitude r) = Geocode.isna (Longitude r).

(** What the loop does to a row, given a cache with paired values: a row
    with latitude is kept, a row without is kept or gets paired
    coordinates, and gets them whenever the loop runs to its end. *)
Definition row_step (finished : bool) (r r' : row) : Prop :=
  if Geocode.isna (Latitude r)
  then row_paired r' \/ (finished = false /\ r' = r)
  else r' = r.

End CacheShape.

(* ================================================================== *)
(** * What a live refresh asks and changes *)

Module RefreshShape.

Import LiveRefresh.

(** The usable place identifiers of a list of dealers, in list order. *)
Definition place_ids (dealers : list dealer) : list string :=
  flat_map (fun d => match usable_place_id d with
                     | Some pid => [pid]
                     | None => []
                     end) dealers.

(** How a returned entry relates to the dealer it comes from: the dealer
    with a failure status and nothing else changed, or the dealer with the
    rating, review count and reviews of a result that the service sent
    with status 200. *)
Definition changed_by (places_api : nat -> string -> http_reply) (d d' : dealer) : Prop :=
  (exists s, d' = set_status s d /\ s <> "Updated")
  \/ (exists n pid r,
         usable_place_id d = Some pid
         /\ places_api n pid = HttpResponse 200 (Json (Some r))
         /\ d' = apply_details r d).

End RefreshShape.

(* ================================================================== *)
(** * The order of binary64 values, read on integer keys *)

Module FloatOrder.

(** A number (anything but NaN) as a triple of integers whose
    lexicographic order is the order of the numbers: sign class, then
    exponent, then mantissa, the last two reversed for negative values. *)
Definition sf_key (x : spec_float) : option (Z * Z * Z) :=
  match x with
  | S754_zero _ => Some (0, 0, 0)%Z
  | S754_infinity false => Some (2, 0, 0)%Z
  | S754_infinity true => Some (-2, 0, 0)%Z
  | S754_nan => None
  | S754_finite false m e => Some (1, e, Z.pos m)%Z
  | S754_finite true m e => Some (-1, - e, Z.neg m)%Z
  end.

Definition lex_compare (a b : Z * Z * Z) : comparison :=
  match (fst (fst a) ?= fst (fst b))%Z with
  | Eq => match (snd (fst a) ?= snd (fst b))%Z with
          | Eq => (snd a ?= snd b)%Z
          | c => c
          end
  | c => c
  end.

Definition lex_le (a b : Z * Z * Z) : Prop :=
  (fst (fst a) < fst (fst b)
   \/ (fst (fst a) = fst (fst b)
       /\ (snd (fst a) < snd (fst b)
           \/ (snd (fst a) = snd (fst b) /\ snd a <= snd b))))%Z.

(** The key of a float. *)
Definition key (x : float) : option (Z * Z * Z) := sf_key (Prim2SF x).

End FloatOrder.

(* ================================================================== *)
(** * Loading the table (lines 16-38) *)

Module Load.

(** One review of the input file. *)
Record raw_review := mkreview { text : string; time : Z }.

(** One dealer of the input file. The keys read with [dealer[...]] are
    plain fields; the keys read with [dealer.get(...)] are optional. *)
Record raw_dealer := mkraw {
  actual_name : string;
  overall_rating : float;
  total_reviews : Z;
  province : option string;
  postal_code : option string;
  latitude : option float;
  longitude : option float;
  reviews : list raw_review
}.

(** The dictionary appended to [data] for one dealer. An absent or empty
    review list gives the empty list of times either way. *)
Definition to_row (dealer : raw_dealer) : row :=
  mkrow (actual_name dealer) (overall_rating dealer) (total_reviews dealer)
        (match province dealer with Some p => p | None => "Unknown" end)
        (postal_code dealer) (latitude dealer) (longitude dealer)
        (match reviews dealer with
         | [] => []
         | _ :: _ => map time (reviews dealer)
         end).

(** [df = pd.DataFrame(data)]. *)
Definition load (dealers_data : list raw_dealer) : DataFrame :=
  map to_row dealers_data.

End Load.

(* ================================================================== *)
(** * The rating distribution of [national_overview] (line 158) *)

Module Distribution.

(** Add one occurrence of a rating to a table of counts; ratings are
    compared with the float equality. *)
Fixpoint tally (x : float) (counts : list (float * nat)) : list (float * nat) :=
  match counts with
  | [] => [(x, 1%nat)]
  | (y, n) :: rest =>
      if (x =? y)%float then (y, S n) :: rest else (y, n) :: tally x rest
  end.

Fixpoint insert_by_count (e : float * nat) (sorted : list (float * nat)) :=
  match sorted with
  | [] => [e]
  | e' :: rest =>
      if (snd e' <? snd e)%nat then e :: sorted else e' :: insert_by_count e rest
  end.

(** [Series.value_counts()] of a float column: NaN entries are left out,
    one entry per distinct rating, most frequent first. *)
Definition value_counts (values : list float) : list (float * nat) :=
  fold_right insert_by_count []
    (fold_left (fun counts x => tally x counts) (Aggregator.dropna values) []).

Fixpoint insert_by_index (e : float * nat) (sorted : list (float * nat)) :=
  match sorted with
  | [] => [e]
  | e' :: rest =>
      if (fst e <=? fst e')%float then e :: sorted else e' :: insert_by_index e rest
  end.

(** [Series.sort_index()]: ascending by rating. *)
Definition sort_index (counts : list (float * nat)) : list (float * nat) :=
  fold_right insert_by_index [] counts.

(** The data of the bar chart. *)
Definition rating_distribution (filtered_df : DataFrame) : list (float * nat) :=
  sort_index (value_counts (map Rating filtered_df)).

(** The sum of the bars. *)
Definition total (counts : list (float * nat)) : nat :=
  fold_right (fun e acc => (snd e + acc)%nat) 0%nat counts.

(** A bar of a column: its rating is a number of the column and its count
    is positive. *)
Definition bar_of (column : list float) (e : float * nat) : Prop :=
  is_nan (fst e) = false /\ In (fst e) column /\ (0 < snd e)%nat.

(** Bars in ascending order of rating. *)
Definition ascending_ratings (counts : list (float * nat)) : Prop :=
  StronglySorted (fun a b => (fst a <=? fst b)%float = true) counts.

End Distribution.

(* ================================================================== *)
(** * Dealer insights: [dealer_insights] (lines 161-180) *)

Module Insights.

(** What the tab shows below its heading. *)
Inductive insight :=
| NoDealerSelected
| IndexError
| Details (rating : float) (total_reviews : Z)
          (sentiments : Sentiment.summary) (shown_reviews : list string).

(** Lines 170-173: the texts of the reviews of every dealer of the input
    file that bears the selected name. *)
Definition reviews_of (dealers_data : list Load.raw_dealer) (dealer_filter : string)
    : list string :=
  flat_map (fun dealer =>
              if String.eqb (Load.actual_name dealer) dealer_filter
              then map Load.text (Load.reviews dealer)
              else [])
           dealers_data.

Section WithScorer.

Variable polarity : string -> float.

(** [values[0]] of an empty selection raises [IndexError] before anything
    else is computed. *)
Definition dealer_insights (dealers_data : list Load.raw_dealer)
    (filtered_df : DataFrame) (dealer_filter : string) : insight :=
  if negb (String.eqb dealer_filter All_Dealers) then
    let dealer_data := filter (fun r => String.eqb (Dealer r) dealer_filter) filtered_df in
    match dealer_data with
    | [] => IndexError
    | first :: _ =>
        let reviews := reviews_of dealers_data dealer_filter in
        Details (Rating first) (Total_Reviews first)
                (Sentiment.analyze_sentiment polarity reviews)
                (firstn 5 reviews)
    end
  else NoDealerSelected.

End WithScorer.

End Insights.

(* ================================================================== *)
(** * Dealer map: [dealer_map] (lines 200-213) *)

Module DealerMap.

Inductive color := blue | red.

(** One marker: its location, the dealer and rating of its popup, and the
    colour of its icon. *)
Record marker := mkmarker {
  location : float * float;
  popup_dealer : string;
  popup_rating : float;
  icon : color
}.

Definition icon_color (rating : float) : color :=
  if (4 <=? rating)%float then blue else red.

(** The marker added for a row, if any: both coordinates must be there. *)
Definition marker_of (r : row) : option marker :=
  match Latitude r, Longitude r with
  | Some lat, Some lng =>
      Some (mkmarker (lat, lng) (Dealer r) (Rating r) (icon_color (Rating r)))
  | _, _ => None
  end.

(** The markers on the map, in the order in which the loop adds them. *)
Fixpoint dealer_map (filtered_df : DataFrame) : list marker :=
  match filtered_df with
  | [] => []
  | r :: rest =>
      match marker_of r with
      | Some m => m :: dealer_map rest
      | None => dealer_map rest
      end
  end.

End DealerMap.

(* ================================================================== *)
(** * Concrete scenarios *)

(** The three dealers of the end-to-end scenario. *)
Definition dealer_on_35 : row := mkrow "North Motors" 3.5 120 "ON" None None None [].
Definition dealer_bc_48 : row := mkrow "Coast Motors" 4.8 300 "BC" None None None [].
Definition dealer_on_20 : row := mkrow "Lake Motors" 2.0 45 "ON" None None None [].

(** Two behaviours of the geocoding service: every request fails in
    transit, and every request is answered with an empty result set. *)
Definition api_down : nat -> Geocode.postal -> Geocode.api_reply :=
  fun _ _ => Geocode.ApiFailure RequestException.

Definition api_zero_results : nat -> Geocode.postal -> Geocode.api_reply :=
  fun _ _ => Geocode.ApiBody "ZERO_RESULTS" [].

Definition some_postal_code : Geocode.postal := Some "M5V 2T6".

(** A place-details service that knows one place and is unavailable for
    every other, and three dealers: one without place identifier, one
    unknown to the service, one known. *)
Definition api_one_place : nat -> string -> LiveRefresh.http_reply :=
  fun _ pid =>
    if String.eqb pid "ChIJ-known"
    then LiveRefresh.HttpResponse 200
           (LiveRefresh.Json (Some (LiveRefresh.mkdetails (Some 4.5%float) (Some 87%Z) ["Great"])))
    else LiveRefresh.HttpResponse 503 LiveRefresh.NotJson.

Definition three_dealers : list LiveRefresh.dealer :=
  [LiveRefresh.mkdealer "North Motors" None None None [] None;
   LiveRefresh.mkdealer "Coast Motors" (Some "ChIJ-gone") None None [] None;
   LiveRefresh.mkdealer "Lake Motors" (Some "ChIJ-known") None None [] None].

(** A geocoding service that locates every postal code at one place, a
    clock that advances by ten seconds per row, and a table of three rows:
    located at load, not located, not located and without postal code. *)
Definition api_found : nat -> Geocode.postal -> Geocode.api_reply :=
  fun _ _ => Geocode.ApiBody "OK" [(43.64, -79.39)%float].

Definition clock_by_ten : nat -> Q * Q :=
  fun index => (inject_Z (10 * Z.of_nat index), inject_Z (10 * Z.of_nat index + 1)).

Definition located_row : row :=
  mkrow "North Motors" 3.5 120 "ON" (Some "K1A 0B1") (Some 45.42%float) (Some (-75.70)%float) [].
Definition unlocated_row : row :=
  mkrow "Lake Motors" 2.0 45 "ON" (Some "M5V 2T6") None None [].
Definition unaddressed_row : row :=
  mkrow "Coast Motors" 4.8 300 "BC" None None None [].

(** The input file of a small dashboard: a dealer with seven reviews, one
    with a single review, one with none and no province; and a scorer that
    finds every text mildly positive. *)
Definition raw_dealers : list Load.raw_dealer :=
  [Load.mkraw "North Motors" 3.5 7 (Some "ON") (Some "K1A 0B1")
     (Some 45.42%float) (Some (-75.70)%float)
     [Load.mkreview "one" 1642204800; Load.mkreview "two" 1642636800;
      Load.mkreview "three" 1643673600; Load.mkreview "four" 1643760000;
      Load.mkreview "five" 1643846400; Load.mkreview "six" 1643932800;
      Load.mkreview "seven" 1644019200];
   Load.mkraw "Coast Motors" 4.8 1 (Some "BC") None None None
     [Load.mkreview "fine" 1642204800];
   Load.mkraw "Lake Motors" 2.0 0 None (Some "M5V 2T6") None None []].

Definition mild_scorer : string -> float := fun _ => 0.5%float.

(** Three dealers with one review each: 2022-01-15, 2022-01-20 and
    2022-02-01, all at midnight UTC; and a dealer reviewed in the year
    2286. *)
Definition reviewed_at (t : Z) : row := mkrow "Dealer" 4.0 1 "ON" None None None [t].

Definition january_february : DataFrame :=
  [reviewed_at 1642204800; reviewed_at 1642636800; reviewed_at 1643673600].

Definition far_future : DataFrame := [reviewed_at 10000000000].

(*SCENARIOS*)
(* ================================================================== *)
(** * Properties of the filter engine *)

Section FilterFacts.

Import Filter.

Lemma isin_In (s : string) (values : list string) :
  isin s values = true <-> In s values.
Proof.
  unfold isin. rewrite existsb_exists. split.
  - intros [x [Hin Heq]]. apply String.eqb_eq in Heq. now subst.
  - intros Hin. exists s. split; [assumption | apply String.eqb_refl].
Qed.

Lemma spec_matchesb_iff provinces low high dealer r :
  spec_matchesb provinces low high dealer r = true
  <-> spec_matches provinces low high dealer r.
Proof.
  unfold spec_matchesb, spec_matches.
  rewrite !andb_true_iff, orb_true_iff, isin_In, !String.eqb_eq.
  destruct (string_dec dealer All_Dealers) as [Hall | Hne]; tauto.
Qed.

Lemma filter_filter {A} (f g : A -> bool) (l : list A) :
  filter g (filter f l) = filter (fun x => f x && g x) l.
Proof.
  induction l as [| x l IH]; simpl; [reflexivity |].
  destruct (f x); simpl; [destruct (g x) |]; now rewrite IH.
Qed.

Lemma filter_data_unfold df start_date end_date provinces low high dealer :
  filter_data df start_date end_date provinces (low, high) dealer
  = filter (spec_matchesb provinces low high dealer) df.
Proof.
  unfold filter_data, spec_matchesb, mask. simpl fst; simpl snd.
  destruct (String.eqb dealer All_Dealers) eqn:Hall; simpl.
  - apply filter_ext. intros r. now rewrite andb_true_r.
  - rewrite filter_filter. now apply filter_ext.
Qed.

Lemma filter_idempotent {A} (f : A -> bool) (l : list A) :
  filter f (filter f l) = filter f l.
Proof.
  rewrite filter_filter. apply filter_ext. intros x. now destruct (f x).
Qed.

End FilterFacts.

(** C1: [filter_data] returns, in table order, exactly the rows that pass
    the conjunction of the three tests: rating between the two bounds,
    both included; province among the selected ones; and, when the dealer
    criterion is not "All Dealers", a name equal to it character for
    character. Of three dealers in ON, BC, ON rated 3.5, 4.8, 2.0, the
    selection of ON with ratings from 3.0 to 5.0 keeps the first only. *)
Theorem filter_data_selects :
  (forall df start_date end_date provinces low high dealer,
      Filter.filter_data df start_date end_date provinces (low, high) dealer
      = filter (Filter.spec_matchesb provinces low high dealer) df)
  /\ (forall df start_date end_date provinces low high dealer r,
      In r (Filter.filter_data df start_date end_date provinces (low, high) dealer)
      <-> In r df /\ Filter.spec_matches provinces low high dealer r)
  /\ Filter.filter_data [dealer_on_35; dealer_bc_48; dealer_on_20]
       (mkdate 2022 1 1) (mkdate 2024 1 1) ["ON"] (3.0, 5.0)%float All_Dealers
     = [dealer_on_35]
  /\ Filter.filter_data [dealer_on_35; dealer_bc_48; dealer_on_20]
       (mkdate 2022 1 1) (mkdate 2024 1 1) ["ON"; "BC"] (1.0, 5.0)%float "north motors"
     = [].
Proof.
  split; [| split; [| split]].
  - intros. apply filter_data_unfold.
  - intros. now rewrite filter_data_unfold, filter_In, spec_matchesb_iff.
  - reflexivity.
  - reflexivity.
Qed.

(** C2: the start and end dates take no part in the selection: two calls
    that agree on provinces, rating range and dealer return the same rows
    whatever their dates. *)
Theorem filter_data_ignores_dates :
  forall df start_date end_date start_date' end_date' provinces ratings dealer,
    Filter.filter_data df start_date end_date provinces ratings dealer
    = Filter.filter_data df start_date' end_date' provinces ratings dealer.
Proof.
  intros. unfold Filter.filter_data. reflexivity.
Qed.

(** C7: filtering is idempotent: filtering the result of a call again with
    the same criteria returns that result unchanged. *)
Theorem filter_data_idempotent :
  forall df start_date end_date provinces ratings dealer,
    Filter.filter_data
      (Filter.filter_data df start_date end_date provinces ratings dealer)
      start_date end_date provinces ratings dealer
    = Filter.filter_data df start_date end_date provinces ratings dealer.
Proof.
  intros df start_date end_date provinces [low high] dealer.
  rewrite !filter_data_unfold. apply filter_idempotent.
Qed.

(* ================================================================== *)
(** * Facts about binary64 comparisons *)

Section FloatFacts.

Lemma SFcompare_refl (x : spec_float) :
  x <> S754_nan -> SFcompare x x = Some Eq.
Proof.
  destruct x as [s | s | | s m e]; simpl; intros Hx; try congruence.
  - now destruct s.
  - destruct s; rewrite Z.compare_refl, Pos.compare_cont_refl; reflexivity.
Qed.

(** A value that some bound is below or equal to is not NaN. *)
Lemma leb_not_nan (low x : float) :
  (low <=? x)%float = true -> is_nan x = false.
Proof.
  intros Hle. unfold is_nan.
  rewrite FloatAxioms.leb_spec in Hle. rewrite FloatAxioms.eqb_spec.
  unfold SFleb in Hle. unfold SFeqb.
  destruct (Prim2SF x) eqn:Hx.
  1,2,4: rewrite SFcompare_refl by discriminate; reflexivity.
  destruct (Prim2SF low); simpl in Hle; discriminate.
Qed.

(** No polarity is both below -0.2 and above 0.2. *)
Lemma below_not_above (p : float) :
  (p <? -0.2)%float = true -> (0.2 <? p)%float = false.
Proof.
  rewrite !FloatAxioms.ltb_spec.
  change (Prim2SF (-0.2)) with (S754_finite true 7205759403792794 (-55)).
  change (Prim2SF 0.2) with (S754_finite false 7205759403792794 (-55)).
  unfold SFltb.
  destruct (Prim2SF p) as [s | s | | s m e]; try destruct s;
    unfold SFcompare; cbv beta iota; intros H;
    first [reflexivity | discriminate H].
Qed.

End FloatFacts.

(* ================================================================== *)
(** * Properties of the sentiment classifier *)

Section SentimentFacts.

Import Sentiment.

Variable polarity : string -> float.

Lemma classified_total (reviews : list string) :
  (classified polarity Positive reviews + classified polarity Neutral reviews
   + classified polarity Negative reviews = List.length reviews)%nat.
Proof.
  unfold classified.
  induction reviews as [| review reviews IH]; simpl; [reflexivity |].
  destruct (classify polarity review); simpl; lia.
Qed.

Lemma analyze_sentiment_from (reviews : list string) (s : summary) :
  fold_left (fun s review => bump (classify polarity review) s) reviews s
  = mksummary (n_positive s + classified polarity Positive reviews)
              (n_neutral s + classified polarity Neutral reviews)
              (n_negative s + classified polarity Negative reviews).
Proof.
  unfold classified.
  revert s. induction reviews as [| review reviews IH]; intros s; simpl.
  - destruct s as [a b c]; simpl. now rewrite !Nat.add_0_r.
  - rewrite IH. destruct (classify polarity review); simpl; f_equal; lia.
Qed.

End SentimentFacts.

(** C3: for every review text, [classify] is Positive exactly when the
    polarity is strictly above 0.2, Negative exactly when it is strictly
    below -0.2, and Neutral in every other case; a polarity of exactly 0.2
    or exactly -0.2 is Neutral. *)
Theorem classify_thresholds :
  forall (polarity : string -> float) (review : string),
    (Sentiment.classify polarity review = Sentiment.Positive
     <-> (0.2 <? polarity review)%float = true)
    /\ (Sentiment.classify polarity review = Sentiment.Negative
        <-> (polarity review <? -0.2)%float = true)
    /\ (Sentiment.classify polarity review = Sentiment.Neutral
        <-> (0.2 <? polarity review)%float = false
            /\ (polarity review <? -0.2)%float = false)
    /\ Sentiment.classify (fun _ => 0.2%float) review = Sentiment.Neutral
    /\ Sentiment.classify (fun _ => (-0.2)%float) review = Sentiment.Neutral.
Proof.
  intros polarity review. unfold Sentiment.classify, Sentiment.classify_polarity.
  repeat split; try reflexivity.
  - destruct (0.2 <? polarity review)%float; [reflexivity |].
    destruct (polarity review <? -0.2)%float; discriminate.
  - intros Hpos. now rewrite Hpos.
  - destruct (0.2 <? polarity review)%float; [discriminate |].
    destruct (polarity review <? -0.2)%float; [reflexivity | discriminate].
  - intros Hneg. rewrite (below_not_above _ Hneg). now rewrite Hneg.
  - destruct (0.2 <? polarity review)%float; [discriminate | reflexivity].
  - destruct (0.2 <? polarity review)%float; [discriminate |].
    destruct (polarity review <? -0.2)%float; [discriminate | reflexivity].
  - intros [Hpos Hneg]. now rewrite Hpos, Hneg.
Qed.

(** C10: [analyze_sentiment] puts every text in exactly one of the three
    buckets: each count is the number of texts classified with that label,
    the three counts add up to the number of texts, and the empty list
    yields the tally with three zeros. *)
Theorem analyze_sentiment_partitions :
  forall (polarity : string -> float) (reviews : list string),
    let tally := Sentiment.analyze_sentiment polarity reviews in
    Sentiment.n_positive tally = Sentiment.classified polarity Sentiment.Positive reviews
    /\ Sentiment.n_neutral tally = Sentiment.classified polarity Sentiment.Neutral reviews
    /\ Sentiment.n_negative tally = Sentiment.classified polarity Sentiment.Negative reviews
    /\ (Sentiment.n_positive tally + Sentiment.n_neutral tally
        + Sentiment.n_negative tally = List.length reviews)%nat
    /\ Sentiment.analyze_sentiment polarity [] = Sentiment.mksummary 0 0 0.
Proof.
  intros polarity reviews tally. subst tally.
  unfold Sentiment.analyze_sentiment. rewrite analyze_sentiment_from. simpl.
  repeat split. apply classified_total.
Qed.

(* ================================================================== *)
(** * Properties of the average rating *)

Section MeanFacts.

Import Aggregator.




Lemma dropna_bounded (low : float) (values : list float) :
  Forall (fun x => (low <=? x)%float = true) values -> dropna values = values.
Proof.
  induction 1 as [| x values Hx _ IH]; simpl; [reflexivity |].
  rewrite (leb_not_nan _ _ Hx). simpl. now rewrite IH.
Qed.

Lemma filtered_ratings_bounded df start_date end_date provinces low high dealer :
  Forall (fun x => (low <=? x)%float = true)
         (map Rating (Filter.filter_data df start_date end_date provinces (low, high) dealer)).
Proof.
  rewrite filter_data_unfold. apply Forall_map, Forall_forall.
  intros r Hin. apply filter_In in Hin. destruct Hin as [_ Hm].
  apply spec_matchesb_iff in Hm. apply Hm.
Qed.

End MeanFacts.


(* ================================================================== *)
(** * Properties of the cache *)

Section CacheFacts.

Import Cachetools.

Variables K V : Type.
Variable K_eqb : K -> K -> bool.
Hypothesis K_eqb_refl : forall k, K_eqb k k = true.

Variable maxsize : nat.
Variable ttl : Q.

Lemma Qltb_lt (x y : Q) : (x < y)%Q -> Qltb x y = true.
Proof.
  intros Hlt. unfold Qltb. apply negb_true_iff.
  destruct (Qle_bool y x) eqn:Hle; [| reflexivity].
  apply Qle_bool_iff in Hle. exfalso. exact (Qlt_not_le _ _ Hlt Hle).
Qed.

Lemma find_app_cases {A} (f : A -> bool) (l1 l2 : list A) :
  find f (l1 ++ l2) = match find f l1 with Some x => Some x | None => find f l2 end.
Proof.
  induction l1 as [| x l1 IH]; simpl; [reflexivity |].
  now destruct (f x).
Qed.

Lemma find_filter_negb {A} (f : A -> bool) (l : list A) :
  find f (filter (fun x => negb (f x)) l) = None.
Proof.
  induction l as [| x l IH]; simpl; [reflexivity |].
  destruct (f x) eqn:Hf; simpl; [assumption |]. now rewrite Hf.
Qed.

(** A stored item is the one a lookup of its key finds, with expiry one
    [ttl] after the store, whatever the reply that was stored. *)
Lemma find_setitem (time : Q) (k : K) (v : V) (c : TTLCache K V) :
  (1 <= maxsize)%nat ->
  find (has_key K_eqb k) (setitem K_eqb maxsize ttl time k v c)
  = Some (mklink k v (time + ttl)).
Proof.
  intros Hcap. unfold setitem.
  destruct (maxsize <? 1)%nat eqn:Hfull.
  - apply Nat.ltb_lt in Hfull. lia.
  - rewrite find_app_cases, find_filter_negb. simpl.
    unfold has_key at 1. simpl. now rewrite K_eqb_refl.
Qed.

(** Before its expiry, a stored item is returned by the lookup. *)
Lemma getitem_hit (time : Q) (k : K) (c : TTLCache K V) (l : link K V) :
  find (has_key K_eqb k) c = Some l ->
  (time < l_expires l)%Q ->
  getitem K_eqb time k c = (Some (l_value l), move_to_end K_eqb k c).
Proof.
  intros Hfind Hlive. unfold getitem. rewrite Hfind.
  now rewrite (Qltb_lt _ _ Hlive).
Qed.

End CacheFacts.

Section GeocodeFacts.

Import Cachetools Geocode.

Lemma postal_eqb_refl (k : postal) : postal_eqb k k = true.
Proof. destruct k as [s |]; simpl; [apply String.eqb_refl | reflexivity]. Qed.

Lemma locate_failure (status : string) (results : list (float * float)) :
  status <> "OK" \/ results = [] -> locate status results = NotFound.
Proof.
  intros [Hstatus | Hempty]; unfold locate.
  - destruct results as [| [lat lng] rest]; [reflexivity |].
    apply String.eqb_neq in Hstatus. now rewrite Hstatus.
  - now subst.
Qed.

Variable geocoding_api : nat -> postal -> api_reply.

(** A call that reaches the service and gets a body back returns what
    [locate] reads in it, logs one request, and leaves that value in the
    cache with expiry 86400 seconds after the store, for a found location
    and for a failed lookup alike. *)
Lemma geocode_miss (t_get t_set : Q) (postal_code : postal) (w : world)
    (status : string) (results : list (float * float)) :
  fst (getitem postal_eqb t_get postal_code (cache w)) = None ->
  geocoding_api (List.length (requests w)) postal_code = ApiBody status results ->
  exists w1,
    geocode_postal_code geocoding_api t_get t_set postal_code w
    = (Returned (locate status results), w1)
    /\ requests w1 = requests w ++ [postal_code]
    /\ find (has_key postal_eqb postal_code) (cache w1)
       = Some (mklink postal_code (locate status results) (t_set + 86400)).
Proof.
  intros Hmiss Hreply. unfold geocode_postal_code.
  destruct (getitem postal_eqb t_get postal_code (cache w)) as [[v |] c] eqn:Hget;
    simpl in Hmiss; [discriminate |].
  rewrite Hreply. eexists. split; [reflexivity |]. split; [reflexivity |].
  simpl. apply find_setitem; [apply postal_eqb_refl | unfold cache_maxsize; lia].
Qed.

(** A call that finds a live item returns it and sends nothing. *)
Lemma geocode_hit (t_get t_set : Q) (postal_code : postal) (w : world)
    (l : link postal coords) :
  find (has_key postal_eqb postal_code) (cache w) = Some l ->
  (t_get < l_expires l)%Q ->
  exists w2,
    geocode_postal_code geocoding_api t_get t_set postal_code w
    = (Returned (l_value l), w2)
    /\ requests w2 = requests w.
Proof.
  intros Hfind Hlive. unfold geocode_postal_code.
  rewrite (getitem_hit _ _ _ _ _ _ _ Hfind Hlive).
  eexists. split; reflexivity.
Qed.

End GeocodeFacts.

(** C4, as the code has it: when the geocoding service answers a lookup
    with a status other than OK or with an empty result set, the call
    returns the pair (None, None) and raises nothing; that pair is cached
    under the same postal code, with the same 86400-second lifetime as a
    found location, so that a second call for the same postal code before
    that lifetime has elapsed returns the pair again and sends no new
    request. *)
Theorem failed_lookup_is_cached :
  forall (geocoding_api : nat -> Geocode.postal -> Geocode.api_reply)
         (t_get t_set t_again t_set' : Q) (postal_code : Geocode.postal)
         (w : Geocode.world) (status : string) (results : list (float * float)),
    fst (Cachetools.getitem Geocode.postal_eqb t_get postal_code (Geocode.cache w)) = None ->
    geocoding_api (List.length (Geocode.requests w)) postal_code
    = Geocode.ApiBody status results ->
    status <> "OK" \/ results = [] ->
    (t_again < t_set + 86400)%Q ->
    exists w1 w2,
      Geocode.geocode_postal_code geocoding_api t_get t_set postal_code w
      = (Returned Geocode.NotFound, w1)
      /\ Geocode.requests w1 = Geocode.requests w ++ [postal_code]
      /\ find (Cachetools.has_key Geocode.postal_eqb postal_code) (Geocode.cache w1)
         = Some (Cachetools.mklink postal_code Geocode.NotFound (t_set + 86400))
      /\ Geocode.geocode_postal_code geocoding_api t_again t_set' postal_code w1
         = (Returned Geocode.NotFound, w2)
      /\ Geocode.requests w2 = Geocode.requests w1.
Proof.
  intros api t_get t_set t_again t_set' postal_code w status results
         Hmiss Hreply Hfail Hsoon.
  destruct (geocode_miss api t_get t_set postal_code w status results Hmiss Hreply)
    as [w1 [Hcall [Hsent Hstored]]].
  rewrite (locate_failure _ _ Hfail) in Hcall, Hstored.
  destruct (geocode_hit api t_again t_set' postal_code w1 _ Hstored Hsoon)
    as [w2 [Hcall2 Hsent2]].
  exists w1, w2. repeat split; assumption.
Qed.

Lemma failed_lookup_is_cached_witness :
  exists w1 w2,
    Geocode.geocode_postal_code api_zero_results 0 1 some_postal_code Geocode.initial_world
    = (Returned Geocode.NotFound, w1)
    /\ Geocode.requests w1 = Geocode.requests Geocode.initial_world ++ [some_postal_code]
    /\ find (Cachetools.has_key Geocode.postal_eqb some_postal_code) (Geocode.cache w1)
       = Some (Cachetools.mklink some_postal_code Geocode.NotFound (1 + 86400))
    /\ Geocode.geocode_postal_code api_zero_results 86400 86400 some_postal_code w1
       = (Returned Geocode.NotFound, w2)
    /\ Geocode.requests w2 = Geocode.requests w1.
Proof.
  apply (failed_lookup_is_cached api_zero_results 0 1 86400 86400 some_postal_code
           Geocode.initial_world "ZERO_RESULTS" []).
  - reflexivity.
  - reflexivity.
  - right. reflexivity.
  - reflexivity.
Defined.

(** C4, where the claim fails: a transport error is not turned into the
    pair (None, None). The exception leaves the function, nothing is
    cached, and the next call for the same postal code sends a second
    request. *)
Lemma transport_error_is_raised :
  Geocode.geocode_postal_code api_down 0 1 some_postal_code Geocode.initial_world
  = (Raised RequestException, Geocode.mkworld [] [some_postal_code])
  /\ Geocode.geocode_postal_code api_down 2 3 some_postal_code
       (Geocode.mkworld [] [some_postal_code])
     = (Raised RequestException, Geocode.mkworld [] [some_postal_code; some_postal_code]).
Proof. split; reflexivity. Qed.

(* ================================================================== *)
(** * Properties of the enrichment loop *)

Section EnrichFacts.

Import Cachetools Geocode.

Variable geocoding_api : nat -> postal -> api_reply.
Variable clock : nat -> Q * Q.

Lemma geocode_requests (t_get t_set : Q) (pc : postal) (w : world) :
  let w' := snd (geocode_postal_code geocoding_api t_get t_set pc w) in
  requests w' = requests w \/ requests w' = requests w ++ [pc].
Proof.
  unfold geocode_postal_code.
  destruct (getitem postal_eqb t_get pc (cache w)) as [[v |] c]; simpl.
  - now left.
  - destruct (geocoding_api (List.length (requests w)) pc); simpl; now right.
Qed.

Lemma enrich_row_present (index : nat) (r : row) (w : world) :
  isna (Latitude r) = false ->
  enrich_row geocoding_api clock index r w = (Returned r, w).
Proof. intros Hlat. unfold enrich_row. now rewrite Hlat. Qed.

Lemma enrich_row_absent (index : nat) (r : row) (w : world) :
  isna (Latitude r) = true ->
  let step := enrich_row geocoding_api clock index r w in
  (requests (snd step) = requests w \/ requests (snd step) = requests w ++ [PostalCode r])
  /\ match fst step with
     | Returned r' => exists v, r' = set_coords v r
     | Raised _ => True
     end.
Proof.
  intros Hlat. unfold enrich_row. rewrite Hlat.
  pose proof (geocode_requests (fst (clock index)) (snd (clock index)) (PostalCode r) w) as Hreq.
  destruct (geocode_postal_code geocoding_api (fst (clock index)) (snd (clock index))
              (PostalCode r) w) as [[v | e] w']; simpl in *.
  - split; [assumption | now exists v].
  - split; [assumption | exact I].
Qed.

Lemma sent_for_nil (rows : DataFrame) : sent_for rows [].
Proof. split; [constructor | simpl; lia]. Qed.

Lemma sent_for_skip (r : row) (rows : DataFrame) (sent : list postal) :
  sent_for rows sent -> sent_for (r :: rows) sent.
Proof.
  intros [Hall Hlen]. split.
  - eapply Forall_impl; [| exact Hall]. intros pc [r0 [Hin H0]].
    exists r0. split; [now right | assumption].
  - simpl. destruct (isna (Latitude r)); simpl; lia.
Qed.

Lemma sent_for_cons (r : row) (rows : DataFrame) (sent : list postal) :
  isna (Latitude r) = true ->
  sent_for rows sent -> sent_for (r :: rows) (PostalCode r :: sent).
Proof.
  intros Hlat [Hall Hlen]. split.
  - constructor.
    + exists r. split; [now left | now split].
    + eapply Forall_impl; [| exact Hall]. intros pc [r0 [Hin H0]].
      exists r0. split; [now right | assumption].
  - simpl. rewrite Hlat. simpl. lia.
Qed.

Lemma enrich_from_frame (rows : DataFrame) :
  forall (index : nat) (w : world),
    let '(rows', w', _) := enrich_from geocoding_api clock index rows w in
    Forall2 row_kept_or_geocoded rows rows'
    /\ exists sent, requests w' = requests w ++ sent /\ sent_for rows sent.
Proof.
  induction rows as [| r rest IH]; intros index w; simpl.
  - split; [constructor |]. exists []. split; [now rewrite app_nil_r | apply sent_for_nil].
  - destruct (isna (Latitude r)) eqn:Hlat.
    + pose proof (enrich_row_absent index r w Hlat) as [Hreq Hrow].
      destruct (enrich_row geocoding_api clock index r w) as [[r' | e] w1]; simpl in *.
      * specialize (IH (S index) w1).
        destruct (enrich_from geocoding_api clock (S index) rest w1) as [[rest' w2] e2].
        destruct IH as [Hrows [sent [Hsent Hfor]]].
        split.
        -- constructor; [right; now split | assumption].
        -- destruct Hreq as [Hreq | Hreq]; rewrite Hsent, Hreq.
           ++ exists sent. split; [reflexivity | now apply sent_for_skip].
           ++ exists (PostalCode r :: sent). split.
              ** now rewrite <- app_assoc.
              ** now apply sent_for_cons.
      * split.
        -- constructor; [now left |].
           clear. induction rest; constructor; [now left | assumption].
        -- destruct Hreq as [Hreq | Hreq]; rewrite Hreq.
           ++ exists []. split; [now rewrite app_nil_r | apply sent_for_nil].
           ++ exists [PostalCode r]. split; [reflexivity |].
              apply sent_for_cons; [assumption | apply sent_for_nil].
    + rewrite (enrich_row_present index r w Hlat).
      specialize (IH (S index) w).
      destruct (enrich_from geocoding_api clock (S index) rest w) as [[rest' w2] e2].
      destruct IH as [Hrows [sent [Hsent Hfor]]].
      split.
      * constructor; [now left | assumption].
      * exists sent. split; [assumption | now apply sent_for_skip].
Qed.

Lemma Forall2_nth_error_l {A B} (R : A -> B -> Prop) (l : list A) (l' : list B) :
  Forall2 R l l' ->
  forall i a, nth_error l i = Some a -> exists b, nth_error l' i = Some b /\ R a b.
Proof.
  induction 1 as [| x y l l' Hxy _ IH]; intros i a Hi.
  - destruct i; discriminate.
  - destruct i as [| i]; simpl in *.
    + injection Hi as <-. now exists y.
    + now apply IH.
Qed.

End EnrichFacts.

(** C8: the enrichment loop leaves every row whose latitude is present at
    load exactly as it was, and the iteration for such a row touches
    neither the cache nor the geocoding service. A row of the table after
    the loop differs from the row loaded at the same position only when
    the latitude was absent at load, and then only in its coordinates,
    set once from the geocoding result. The requests sent are postal
    codes of rows without latitude, at most one for each. *)
Theorem enrichment_frame :
  forall (geocoding_api : nat -> Geocode.postal -> Geocode.api_reply)
         (clock : nat -> Q * Q) (df : DataFrame) (w : Geocode.world),
    let '(df', w', _) := Geocode.enrich geocoding_api clock df w in
    List.length df' = List.length df
    /\ (forall i r,
           nth_error df i = Some r -> Geocode.isna (Latitude r) = false ->
           nth_error df' i = Some r
           /\ forall index w0,
               Geocode.enrich_row geocoding_api clock index r w0 = (Returned r, w0))
    /\ (forall i r r',
           nth_error df i = Some r -> nth_error df' i = Some r' ->
           r' = r
           \/ (Geocode.isna (Latitude r) = true
               /\ exists v, r' = Geocode.set_coords v r))
    /\ exists sent,
         Geocode.requests w' = Geocode.requests w ++ sent
         /\ Geocode.sent_for df sent.
Proof.
  intros api clock df w. unfold Geocode.enrich.
  pose proof (enrich_from_frame api clock df 0%nat w) as Hframe.
  destruct (Geocode.enrich_from api clock 0 df w) as [[df' w'] e].
  destruct Hframe as [Hrows Hsent].
  split; [symmetry; eapply Forall2_length; exact Hrows |].
  split; [| split; [| exact Hsent]].
  - intros i r Hi Hlat. split.
    + destruct (Forall2_nth_error_l _ _ _ Hrows i r Hi) as [r' [Hi' [-> | [Habs _]]]].
      * assumption.
      * congruence.
    + intros index w0. now apply enrich_row_present.
  - intros i r r' Hi Hi'.
    destruct (Forall2_nth_error_l _ _ _ Hrows i r Hi) as [r'' [Hi'' Hstep]].
    rewrite Hi' in Hi''. injection Hi'' as <-. exact Hstep.
Qed.

(** The loop on a small table: the located row is untouched and sends
    nothing, each of the two others is geocoded with one request, and a
    second row with the same postal code is served from the cache. *)
Example enrich_three_rows :
  let '(df', w', e) :=
    Geocode.enrich api_found clock_by_ten
      [located_row; unlocated_row; unaddressed_row; unlocated_row] Geocode.initial_world in
  df' = [located_row;
         Geocode.set_coords (Some 43.64, Some (-79.39))%float unlocated_row;
         Geocode.set_coords (Some 43.64, Some (-79.39))%float unaddressed_row;
         Geocode.set_coords (Some 43.64, Some (-79.39))%float unlocated_row]
  /\ Geocode.requests w' = [Some "M5V 2T6"; None]
  /\ e = None.
Proof. vm_compute. repeat split. Qed.

(** With the service down, the loop stops at the first row it has to
    geocode and leaves the table as loaded. *)
Example enrich_service_down :
  Geocode.enrich api_down clock_by_ten [located_row; unlocated_row; unaddressed_row]
    Geocode.initial_world
  = ([located_row; unlocated_row; unaddressed_row],
     Geocode.mkworld [] [Some "M5V 2T6"], Some RequestException).
Proof. reflexivity. Qed.

(* ================================================================== *)
(** * Properties of the live refresh *)

Section LiveRefreshFacts.

Import LiveRefresh.

Variable places_api : nat -> string -> http_reply.



End LiveRefreshFacts.




(** The statuses of the three dealers, evaluated. *)
Example live_refresh_three_dealers :
  option_map (map LiveRefresh.Status)
    (match fst (LiveRefresh.fetch_live_reviews api_one_place three_dealers) with
     | Returned updated => Some updated
     | Raised _ => None
     end)
  = Some [Some "Failed: No Place ID"; Some "Failed: 503"; Some "Updated"]
  /\ snd (LiveRefresh.fetch_live_reviews api_one_place three_dealers)
     = ["ChIJ-gone"; "ChIJ-known"].
Proof. split; reflexivity. Qed.

(* ================================================================== *)
(** * Properties of the review trend *)

Section TrendFacts.

Import Aggregator.

Local Open Scope Z_scope.

Lemma collect_review_times_from (lists : list (list Z)) (acc : list Z) :
  fold_left (fun review_times review_list =>
               match review_list with
               | [] => review_times
               | _ :: _ => review_times ++ review_list
               end) lists acc
  = acc ++ List.concat lists.
Proof.
  revert acc. induction lists as [| l lists IH]; intros acc; simpl.
  - now rewrite app_nil_r.
  - rewrite IH. destruct l; [reflexivity | now rewrite app_assoc].
Qed.

Lemma collect_review_times_concat (filtered_df : DataFrame) :
  collect_review_times filtered_df = List.concat (map ReviewTime filtered_df).
Proof. unfold collect_review_times. now rewrite collect_review_times_from. Qed.

(** ** Tables of counts *)

Lemma count_of_cons (p : period) (e : period * nat) (counts : list (period * nat)) :
  count_of p (e :: counts) = if fst e =? p then snd e else count_of p counts.
Proof. unfold count_of. simpl. now destruct (fst e =? p). Qed.

Lemma count_of_absent (p : period) (counts : list (period * nat)) :
  ~ In p (keys counts) -> count_of p counts = 0%nat.
Proof.
  induction counts as [| e counts IH]; intros Hno; [reflexivity |].
  rewrite count_of_cons. simpl in Hno.
  destruct (Z.eqb_spec (fst e) p) as [Heq | Hne]; [tauto |].
  apply IH. tauto.
Qed.

Lemma count_of_present (p : period) (n : nat) (counts : list (period * nat)) :
  NoDup (keys counts) -> In (p, n) counts -> count_of p counts = n.
Proof.
  induction counts as [| e counts IH]; intros Hnd Hin; [destruct Hin |].
  rewrite count_of_cons. simpl in Hnd. inversion Hnd as [| k ks Hfresh Hrest]; subst.
  destruct Hin as [-> | Hin]; simpl.
  - now rewrite Z.eqb_refl.
  - destruct (Z.eqb_spec (fst e) p) as [Heq | Hne].
    + exfalso. apply Hfresh. subst p. exact (in_map fst _ _ Hin).
    + now apply IH.
Qed.

(** With distinct keys, the count a table holds for a period does not
    depend on the order of its entries. *)
Lemma count_of_permutation (p : period) (l l' : list (period * nat)) :
  Permutation l l' -> NoDup (keys l) -> count_of p l = count_of p l'.
Proof.
  intros Hperm Hnd.
  assert (Hnd' : NoDup (keys l')).
  { eapply Permutation_NoDup; [| exact Hnd]. now apply Permutation_map. }
  destruct (in_dec Z.eq_dec p (keys l)) as [Hin | Hno].
  - apply in_map_iff in Hin. destruct Hin as [[q n] [Hq Hin]]. simpl in Hq. subst q.
    rewrite (count_of_present p n l Hnd Hin).
    symmetry. apply count_of_present; [assumption |].
    eapply Permutation_in; eassumption.
  - rewrite (count_of_absent p l Hno). symmetry. apply count_of_absent.
    intros Hin. apply Hno. eapply Permutation_in; [| exact Hin].
    apply Permutation_map. now apply Permutation_sym.
Qed.

Lemma keys_tally (p : period) (counts : list (period * nat)) :
  forall q, In q (keys (tally p counts)) <-> q = p \/ In q (keys counts).
Proof.
  induction counts as [| [k n] counts IH]; intros q; simpl.
  - intuition congruence.
  - destruct (Z.eqb_spec p k) as [-> | Hne]; simpl.
    + intuition congruence.
    + rewrite IH. intuition congruence.
Qed.

Lemma NoDup_tally (p : period) (counts : list (period * nat)) :
  NoDup (keys counts) -> NoDup (keys (tally p counts)).
Proof.
  induction counts as [| [k n] counts IH]; intros Hnd; simpl.
  - constructor; [intros [] | constructor].
  - inversion Hnd as [| k' ks Hfresh Hrest]; subst.
    destruct (Z.eqb_spec p k) as [-> | Hne]; simpl.
    + now constructor.
    + constructor; [| now apply IH].
      intros Hin. apply keys_tally in Hin. destruct Hin as [-> | Hin]; tauto.
Qed.

Lemma count_of_tally (p q : period) (counts : list (period * nat)) :
  count_of q (tally p counts)
  = if p =? q then S (count_of q counts) else count_of q counts.
Proof.
  induction counts as [| [k n] counts IH]; simpl.
  - rewrite count_of_cons. simpl. now destruct (p =? q).
  - destruct (Z.eqb_spec p k) as [-> | Hne]; rewrite !count_of_cons; simpl.
    + now destruct (k =? q).
    + rewrite IH. destruct (Z.eqb_spec k q) as [-> | Hkq]; [| reflexivity].
      destruct (Z.eqb_spec p q); [contradiction | reflexivity].
Qed.

Lemma positive_tally (p : period) (counts : list (period * nat)) :
  Forall (fun e => (0 < snd e)%nat) counts ->
  Forall (fun e => (0 < snd e)%nat) (tally p counts).
Proof.
  induction 1 as [| [k n] counts Hk Hrest IH]; simpl.
  - constructor; [simpl; lia | constructor].
  - destruct (p =? k); constructor; simpl in *; try assumption; lia.
Qed.

(** The table built by the counting loop. *)
Lemma tally_all (values : list period) :
  forall counts,
    let table := fold_left (fun counts p => tally p counts) values counts in
    (NoDup (keys counts) -> NoDup (keys table))
    /\ (Forall (fun e => (0 < snd e)%nat) counts -> Forall (fun e => (0 < snd e)%nat) table)
    /\ forall q, count_of q table = (count_of q counts + count_occ Z.eq_dec values q)%nat.
Proof.
  induction values as [| p values IH]; intros counts; simpl.
  - repeat split; auto.
  - destruct (IH (tally p counts)) as [Hnd [Hpos Hcount]].
    split; [| split].
    + intros H. apply Hnd. now apply NoDup_tally.
    + intros H. apply Hpos. now apply positive_tally.
    + intros q. rewrite Hcount, count_of_tally.
      destruct (Z.eq_dec p q) as [-> | Hne].
      * rewrite Z.eqb_refl. lia.
      * destruct (Z.eqb_spec p q); [contradiction | lia].
Qed.

(** ** The two orderings *)

Lemma insert_by_count_perm (e : period * nat) (l : list (period * nat)) :
  Permutation (insert_by_count e l) (e :: l).
Proof.
  induction l as [| e' l IH]; simpl; [reflexivity |].
  destruct (snd e' <? snd e)%nat; [reflexivity |].
  rewrite IH. apply perm_swap.
Qed.

Lemma insert_by_index_perm (e : period * nat) (l : list (period * nat)) :
  Permutation (insert_by_index e l) (e :: l).
Proof.
  induction l as [| e' l IH]; simpl; [reflexivity |].
  destruct (fst e <=? fst e'); [reflexivity |].
  rewrite IH. apply perm_swap.
Qed.

Lemma value_counts_perm (values : list period) :
  Permutation (value_counts values) (fold_left (fun counts p => tally p counts) values []).
Proof.
  unfold value_counts.
  induction (fold_left (fun counts p => tally p counts) values []) as [| e l IH]; simpl.
  - reflexivity.
  - rewrite insert_by_count_perm. now constructor.
Qed.

Lemma sort_index_perm (counts : list (period * nat)) :
  Permutation (sort_index counts) counts.
Proof.
  unfold sort_index. induction counts as [| e l IH]; simpl; [reflexivity |].
  rewrite insert_by_index_perm. now constructor.
Qed.

Lemma insert_by_index_ascending (e : period * nat) (l : list (period * nat)) :
  ascending l -> ascending (insert_by_index e l).
Proof.
  unfold ascending, keys.
  induction l as [| e' l IH]; intros Hs; simpl.
  - constructor; constructor.
  - destruct (Z.leb_spec (fst e) (fst e')) as [Hle | Hgt]; simpl.
    + constructor; [assumption |].
      inversion Hs as [| k ks Hrest Hall]; subst.
      constructor; [assumption |].
      eapply Forall_impl; [| exact Hall]. intros k Hk. lia.
    + inversion Hs as [| k ks Hrest Hall]; subst.
      constructor; [now apply IH |].
      assert (Hperm : Permutation (map fst (insert_by_index e l)) (fst e :: map fst l))
        by (change (fst e :: map fst l) with (map fst (e :: l));
            apply Permutation_map, insert_by_index_perm).
      eapply Permutation_Forall; [apply Permutation_sym; exact Hperm |].
      constructor; [lia | assumption].
Qed.

Lemma sort_index_ascending (counts : list (period * nat)) :
  ascending (sort_index counts).
Proof.
  unfold sort_index. induction counts as [| e l IH]; simpl.
  - constructor.
  - now apply insert_by_index_ascending.
Qed.

(** Ascending distinct keys are strictly ascending. *)
Lemma ascending_strict (ks : list period) :
  StronglySorted Z.le ks -> NoDup ks -> StronglySorted Z.lt ks.
Proof.
  induction 1 as [| k ks Hs IH Hall]; intros Hnd; [constructor |].
  inversion Hnd as [| k' ks' Hfresh Hrest]; subst.
  constructor; [now apply IH |].
  apply Forall_forall. intros q Hq.
  rewrite Forall_forall in Hall. specialize (Hall q Hq).
  assert (q <> k) by (intros ->; contradiction). lia.
Qed.

(** The chart data: strictly ascending periods, each with the number of
    times it occurs, and no period that does not occur. *)
Lemma review_counts_spec (values : list period) :
  let review_counts := sort_index (value_counts values) in
  StronglySorted Z.lt (keys review_counts)
  /\ (forall p, count_of p review_counts = count_occ Z.eq_dec values p)
  /\ Forall (fun e => (0 < snd e)%nat) review_counts.
Proof.
  intros review_counts.
  destruct (tally_all values []) as [Hnd [Hpos Hcount]].
  specialize (Hnd (NoDup_nil _)). specialize (Hpos (Forall_nil _)).
  assert (Hperm : Permutation review_counts
                    (fold_left (fun counts p => tally p counts) values [])).
  { subst review_counts. rewrite sort_index_perm. apply value_counts_perm. }
  assert (Hnd' : NoDup (keys review_counts)).
  { eapply Permutation_NoDup; [| exact Hnd].
    apply Permutation_map. now apply Permutation_sym. }
  split; [| split].
  - apply ascending_strict; [apply sort_index_ascending | assumption].
  - intros p. rewrite (count_of_permutation p _ _ Hperm Hnd').
    rewrite Hcount. reflexivity.
  - eapply Permutation_Forall; [apply Permutation_sym; exact Hperm | assumption].
Qed.

End TrendFacts.

(* ================================================================== *)
(** * The calendar conversion is the Gregorian one *)

Section CalendarFacts.

Import Aggregator.

Local Open Scope Z_scope.

Lemma is_leapyear_iff (year : Z) :
  is_leapyear year = true
  <-> year mod 4 = 0 /\ (year mod 100 <> 0 \/ year mod 400 = 0).
Proof.
  unfold is_leapyear.
  rewrite andb_true_iff, orb_true_iff, negb_true_iff, !Z.eqb_eq, Z.eqb_neq.
  reflexivity.
Qed.

Lemma year_length_cases (year : Z) :
  (year_length year = 366
   /\ year mod 4 = 0 /\ (year mod 100 <> 0 \/ year mod 400 = 0))
  \/ (year_length year = 365
      /\ (year mod 4 <> 0 \/ (year mod 100 = 0 /\ year mod 400 <> 0))).
Proof.
  unfold year_length. destruct (is_leapyear year) eqn:Hleap.
  - left. apply is_leapyear_iff in Hleap. tauto.
  - right. split; [reflexivity |].
    destruct (Z.eq_dec (year mod 4) 0) as [H4 | H4]; [| now left].
    destruct (Z.eq_dec (year mod 100) 0) as [H100 | H100].
    + destruct (Z.eq_dec (year mod 400) 0) as [H400 | H400].
      * assert (is_leapyear year = true) by (apply is_leapyear_iff; tauto).
        congruence.
      * right. tauto.
    + assert (is_leapyear year = true) by (apply is_leapyear_iff; tauto).
      congruence.
Qed.

(** Linear arithmetic over the quotients and remainders of a goal that
    mentions the length of one year. *)
Ltac calendar_arith :=
  unfold days_before_year, leap_years_through;
  match goal with
  | |- context [year_length ?y] =>
      let H := fresh in
      destruct (year_length_cases y) as [[H ?] | [H ?]]; rewrite H; clear H
  end;
  Z.div_mod_to_equations; lia.

(** The day count of a year's first day grows by the length of the year. *)
Lemma days_before_next_year (year : Z) :
  days_before_year (year + 1) = days_before_year year + year_length year.
Proof.
  replace (days_before_year (year + 1))
    with (365 * (year + 1 - 1970) + (leap_years_through year - leap_years_through 1969))
    by (unfold days_before_year; now replace (year + 1 - 1) with year by lia).
  calendar_arith.
Qed.

(** The cycle decomposition finds the year that holds the day, and the
    position of the day in it. *)
Lemma days_to_yearsdays_spec (days : Z) :
  let '(year, yday) := days_to_yearsdays days in
  days_before_year year + yday = days /\ 0 <= yday < year_length year.
Proof.
  unfold days_to_yearsdays.
  set (d := days - (365 * 30 + 7)).
  pose proof (Z.div_mod d 146097 ltac:(lia)) as Hd.
  pose proof (Z.mod_pos_bound d 146097 ltac:(lia)) as Hr.
  set (q := d / 146097) in *. set (r := d mod 146097) in *.
  assert (Hdays : days = 146097 * q + r + 10957) by (subst d; lia).
  clearbody q r. clear d Hd.
  destruct (Z.leb_spec 366 r) as [H1 | H1]; [| calendar_arith].
  pose proof (Z.div_mod (r - 1) 36524 ltac:(lia)) as Hc.
  pose proof (Z.mod_pos_bound (r - 1) 36524 ltac:(lia)) as Hr1.
  set (c := (r - 1) / 36524) in *. set (r1 := (r - 1) mod 36524) in *.
  clearbody c r1.
  assert (Hcb : 0 <= c <= 3) by lia.
  destruct (Z.leb_spec 365 r1) as [H2 | H2]; [| calendar_arith].
  pose proof (Z.div_mod (r1 + 1) 1461 ltac:(lia)) as Hq4.
  pose proof (Z.mod_pos_bound (r1 + 1) 1461 ltac:(lia)) as Hr2.
  set (q4 := (r1 + 1) / 1461) in *. set (r2 := (r1 + 1) mod 1461) in *.
  clearbody q4 r2.
  assert (Hq4b : 0 <= q4 <= 24) by lia.
  destruct (Z.leb_spec 366 r2) as [H3 | H3]; [| calendar_arith].
  pose proof (Z.div_mod (r2 - 1) 365 ltac:(lia)) as Hy1.
  pose proof (Z.mod_pos_bound (r2 - 1) 365 ltac:(lia)) as Hr3.
  set (y1 := (r2 - 1) / 365) in *. set (r3 := (r2 - 1) mod 365) in *.
  clearbody y1 r3.
  assert (Hy1b : 1 <= y1 <= 3) by lia.
  calendar_arith.
Qed.

Lemma month_cases (month : Z) :
  1 <= month <= 12 ->
  month = 1 \/ month = 2 \/ month = 3 \/ month = 4 \/ month = 5 \/ month = 6
  \/ month = 7 \/ month = 8 \/ month = 9 \/ month = 10 \/ month = 11 \/ month = 12.
Proof. lia. Qed.

(** The walk over the month table finds the month that holds the day. *)
Lemma month_of_yearday_spec (leap : bool) (yday : Z) :
  0 <= yday < (if leap then 366 else 365) ->
  let month := month_of_yearday (month_lengths leap) 1 yday in
  1 <= month <= 12
  /\ days_before_month leap month <= yday
     < days_before_month leap month + month_length leap month.
Proof.
  intros Hy. unfold month_lengths, month_of_yearday.
  destruct leap;
    repeat match goal with
           | |- context [?a <? ?b] => destruct (Z.ltb_spec a b)
           end;
    cbv zeta; vm_compute days_before_month; vm_compute month_length;
    lia.
Qed.

Lemma period_of_year_month (year month : Z) :
  1 <= month <= 12 ->
  period_year (period_of year month) = year
  /\ period_month (period_of year month) = month.
Proof.
  intros Hm. unfold period_year, period_month, period_of.
  Z.div_mod_to_equations. lia.
Qed.

(** The period after a month starts when the month is over. *)
Lemma next_month_start (year month : Z) :
  1 <= month <= 12 ->
  month_start (period_year (period_of year month + 1))
              (period_month (period_of year month + 1))
  = month_start year month + month_length (is_leapyear year) month.
Proof.
  intros Hm.
  destruct (Z.eq_dec month 12) as [-> | Hne].
  - replace (period_of year 12 + 1) with (period_of (year + 1) 1)
      by (unfold period_of; lia).
    destruct (period_of_year_month (year + 1) 1 ltac:(lia)) as [-> ->].
    unfold month_start. rewrite days_before_next_year.
    unfold year_length.
    destruct (is_leapyear year), (is_leapyear (year + 1));
      vm_compute days_before_month; vm_compute month_length; lia.
  - replace (period_of year month + 1) with (period_of year (month + 1))
      by (unfold period_of; lia).
    destruct (period_of_year_month year (month + 1) ltac:(lia)) as [-> ->].
    unfold month_start.
    destruct (month_cases month Hm)
      as [-> | [-> | [-> | [-> | [-> | [-> | [-> | [-> | [-> | [-> | [-> | ->]]]]]]]]]]];
      destruct (is_leapyear year);
      vm_compute days_before_month; vm_compute month_length; lia.
Qed.

(** Every timestamp lies in the month it is converted to: at or after the
    first second of that month and before the first second of the next. *)
Lemma to_period_M_bracket (t : Z) :
  period_start (to_period_M t) <= t < period_start (to_period_M t + 1).
Proof.
  unfold to_period_M, year_month_of_epoch, period_start.
  pose proof (days_to_yearsdays_spec (t / 86400)) as Hyd.
  destruct (days_to_yearsdays (t / 86400)) as [year yday].
  destruct Hyd as [Hsum Hrange].
  assert (Hrange' : 0 <= yday < (if is_leapyear year then 366 else 365))
    by exact Hrange.
  pose proof (month_of_yearday_spec (is_leapyear year) yday Hrange') as Hmonth.
  cbv zeta in Hmonth.
  set (month := month_of_yearday (month_lengths (is_leapyear year)) 1 yday) in *.
  destruct Hmonth as [Hm Hin].
  rewrite (next_month_start year month Hm).
  destruct (period_of_year_month year month Hm) as [-> ->].
  unfold month_start.
  pose proof (Z.div_mod t 86400 ltac:(lia)) as Ht.
  pose proof (Z.mod_pos_bound t 86400 ltac:(lia)) as Hs.
  lia.
Qed.

(** Period starts on known dates: 1970-01, 2022-01, 2022-02, 1969-12, and
    the two months around the leap day of 2000. *)
Example period_start_examples :
  period_start 0 = 0 /\ period_start 624 = 1640995200
  /\ period_start 625 = 1643673600 /\ period_start (-1) = -2678400
  /\ period_start 361 = 949363200 /\ period_start 362 = 951868800.
Proof. vm_compute. repeat split. Qed.

End CalendarFacts.

(** C6: when every review timestamp is one that the date conversion
    accepts, [review_trends] produces, from the timestamps of all the
    rows taken together, a table of counts per month: the months are in
    strictly ascending (chronological) order, the count held for a month
    is the number of timestamps converted to it, no month without
    timestamp is listed, and each timestamp is converted to the calendar
    month that contains it. *)
Theorem review_trend_counts :
  forall filtered_df : DataFrame,
    let review_times := List.concat (map ReviewTime filtered_df) in
    forallb Aggregator.representable review_times = true ->
    exists view,
      Aggregator.review_trends filtered_df = Returned view
      /\ StronglySorted Z.lt (Aggregator.keys (Aggregator.trend_of view))
      /\ (forall p,
             Aggregator.count_of p (Aggregator.trend_of view)
             = count_occ Z.eq_dec (map Aggregator.to_period_M review_times) p)
      /\ Forall (fun e => (0 < snd e)%nat) (Aggregator.trend_of view)
      /\ (forall t,
             (Aggregator.period_start (Aggregator.to_period_M t) <= t
              < Aggregator.period_start (Aggregator.to_period_M t + 1))%Z).
Proof.
  intros filtered_df review_times Hrep.
  unfold Aggregator.review_trends.
  rewrite collect_review_times_concat. fold review_times.
  destruct review_times as [| t rest] eqn:Htimes.
  - eexists. split; [reflexivity |]. simpl.
    split; [constructor |]. split; [reflexivity |]. split; [constructor |].
    exact to_period_M_bracket.
  - unfold Aggregator.to_datetime. rewrite Hrep.
    eexists. split; [reflexivity |]. simpl Aggregator.trend_of.
    destruct (review_counts_spec (map Aggregator.to_period_M (t :: rest)))
      as [Hsorted [Hcount Hpos]].
    split; [exact Hsorted |]. split; [exact Hcount |]. split; [exact Hpos |].
    exact to_period_M_bracket.
Qed.

Lemma review_trend_counts_witness :
  forallb Aggregator.representable (List.concat (map ReviewTime january_february)) = true
  /\ exists view,
       Aggregator.review_trends january_february = Returned view
       /\ StronglySorted Z.lt (Aggregator.keys (Aggregator.trend_of view))
       /\ (forall p,
              Aggregator.count_of p (Aggregator.trend_of view)
              = count_occ Z.eq_dec
                  (map Aggregator.to_period_M
                       (List.concat (map ReviewTime january_february))) p)
       /\ Forall (fun e => (0 < snd e)%nat) (Aggregator.trend_of view)
       /\ (forall t,
              (Aggregator.period_start (Aggregator.to_period_M t) <= t
               < Aggregator.period_start (Aggregator.to_period_M t + 1))%Z).
Proof.
  split; [reflexivity |].
  apply (review_trend_counts january_february). reflexivity.
Defined.

(** The scenario of the specification: reviews on 2022-01-15, 2022-01-20
    and 2022-02-01 give two for 2022-01 and one for 2022-02, in that
    order. *)
Example review_trends_january_february :
  Aggregator.review_trends january_february
  = Returned (Aggregator.LineChart
                [(Aggregator.period_of 2022 1, 2%nat); (Aggregator.period_of 2022 2, 1%nat)])
  /\ map (fun t => Aggregator.year_month_of_epoch t)
         (List.concat (map ReviewTime january_february))
     = [(2022, 1); (2022, 1); (2022, 2)]%Z.
Proof. split; vm_compute; reflexivity. Qed.

(** A timestamp past the range of the date conversion stops the tab with
    an exception, and a table without any timestamp shows the notice. *)
Example review_trends_outside :
  Aggregator.review_trends far_future = Raised OutOfBoundsDatetime
  /\ Aggregator.review_trends [dealer_on_35]
     = Returned (Aggregator.Notice "No review trends available for the selected filters.").
Proof. split; reflexivity. Qed.

(* ================================================================== *)
(** * The float comparisons form a total order on numbers *)

Section FloatOrderFacts.

Import FloatOrder.

Local Open Scope Z_scope.

Lemma SFcompare_key (x y : spec_float) (kx ky : Z * Z * Z) :
  sf_key x = Some kx -> sf_key y = Some ky ->
  SFcompare x y = Some (lex_compare kx ky).
Proof.
  destruct x as [sx | sx | | sx mx ex]; destruct y as [sy | sy | | sy my ey];
    try destruct sx; try destruct sy; simpl sf_key;
    intros Hx Hy; try discriminate;
    injection Hx as <-; injection Hy as <-;
    unfold SFcompare, lex_compare; cbn [fst snd];
    try reflexivity.
  (* both negative: exponents and mantissas compare in reverse *)
  change (-1 ?= -1) with Eq. cbv beta iota.
  rewrite Z.compare_opp, (Z.compare_antisym ey ex).
  destruct (ey ?= ex); reflexivity.
Qed.

Lemma lex_compare_le (a b : Z * Z * Z) :
  lex_compare a b <> Gt <-> lex_le a b.
Proof.
  destruct a as [[a1 a2] a3], b as [[b1 b2] b3].
  unfold lex_compare, lex_le. cbn [fst snd].
  destruct (Z.compare_spec a1 b1) as [H1 | H1 | H1];
    [destruct (Z.compare_spec a2 b2) as [H2 | H2 | H2];
     [destruct (Z.compare_spec a3 b3) as [H3 | H3 | H3] | |] | |];
    split; intros H; try lia; try discriminate; try congruence.
Qed.

Lemma key_nan (x : float) : key x = None <-> is_nan x = true.
Proof.
  unfold key, is_nan. rewrite FloatAxioms.eqb_spec. unfold SFeqb.
  destruct (Prim2SF x) as [s | s | | s m e] eqn:Hx.
  1,2,4: rewrite SFcompare_refl by discriminate;
    split; [destruct s; discriminate | discriminate].
  split; reflexivity.
Qed.

Lemma key_number (x : float) : is_nan x = false -> exists k, key x = Some k.
Proof.
  intros Hx. destruct (key x) as [k |] eqn:Hk; [now exists k |].
  apply key_nan in Hk. congruence.
Qed.

(** [x <= y] on floats is the order of the keys of two numbers. *)
Lemma leb_key (x y : float) :
  (x <=? y)%float = true
  <-> exists kx ky, key x = Some kx /\ key y = Some ky /\ lex_le kx ky.
Proof.
  rewrite FloatAxioms.leb_spec. unfold SFleb, key.
  destruct (sf_key (Prim2SF x)) as [kx |] eqn:Hx;
    destruct (sf_key (Prim2SF y)) as [ky |] eqn:Hy.
  - rewrite (SFcompare_key _ _ _ _ Hx Hy).
    pose proof (lex_compare_le kx ky) as Hle.
    split.
    + intros H. exists kx, ky. repeat split. apply Hle.
      destruct (lex_compare kx ky); [discriminate | discriminate | discriminate].
    + intros [kx' [ky' [Hkx [Hky Hl]]]].
      injection Hkx as <-. injection Hky as <-. apply Hle in Hl.
      destruct (lex_compare kx ky); [reflexivity | reflexivity | congruence].
  - split; [| intros [? [? [? [? ?]]]]; discriminate].
    destruct (Prim2SF y) as [s | s | | s m e]; try destruct s; try discriminate.
    destruct (Prim2SF x) as [s | s | | s m e]; simpl; discriminate.
  - split; [| intros [? [? [? [? ?]]]]; discriminate].
    destruct (Prim2SF x) as [s | s | | s m e]; try destruct s; discriminate.
  - split; [| intros [? [? [? [? ?]]]]; discriminate].
    destruct (Prim2SF x) as [s | s | | s m e]; try destruct s; discriminate.
Qed.

Lemma lex_le_trans (a b c : Z * Z * Z) : lex_le a b -> lex_le b c -> lex_le a c.
Proof. unfold lex_le. lia. Qed.

Lemma lex_le_total (a b : Z * Z * Z) : lex_le a b \/ lex_le b a.
Proof. unfold lex_le. lia. Qed.

Lemma leb_trans (x y z : float) :
  (x <=? y)%float = true -> (y <=? z)%float = true -> (x <=? z)%float = true.
Proof.
  rewrite !leb_key.
  intros [kx [ky [Hx [Hy Hxy]]]] [ky' [kz [Hy' [Hz Hyz]]]].
  rewrite Hy in Hy'. injection Hy' as <-.
  exists kx, kz. repeat split; try assumption. eapply lex_le_trans; eassumption.
Qed.

Lemma leb_total (x y : float) :
  is_nan x = false -> is_nan y = false ->
  (x <=? y)%float = true \/ (y <=? x)%float = true.
Proof.
  intros Hx Hy.
  destruct (key_number x Hx) as [kx Hkx]. destruct (key_number y Hy) as [ky Hky].
  rewrite !leb_key.
  destruct (lex_le_total kx ky) as [H | H]; [left | right]; eauto 6.
Qed.

End FloatOrderFacts.

(* ================================================================== *)
(** * Further properties of the filter engine *)

Section FilterMore.

Import Filter.

(** A row that passes has a rating between the bounds, so the bounds are
    in order. *)
Lemma spec_matchesb_bounds provinces low high dealer r :
  spec_matchesb provinces low high dealer r = true ->
  (low <=? Rating r)%float = true /\ (Rating r <=? high)%float = true
  /\ (low <=? high)%float = true.
Proof.
  intros Hm. apply spec_matchesb_iff in Hm. destruct Hm as [[Hlow Hhigh] _].
  repeat split; try assumption. eapply leb_trans; eassumption.
Qed.

Lemma filter_none {A} (f : A -> bool) (l : list A) :
  (forall x, In x l -> f x = false) -> filter f l = [].
Proof.
  induction l as [| x l IH]; intros Hall; simpl; [reflexivity |].
  rewrite (Hall x (or_introl eq_refl)). apply IH. intros y Hy. apply Hall. now right.
Qed.

End FilterMore.

(** X1: a rating range whose lower bound is not below or equal to its upper
    bound (the bounds are inverted, or one of them is not a number) selects
    nothing: [filter_data] returns the empty table, whatever the other
    criteria. *)
Theorem filter_data_inverted_range :
  forall df start_date end_date provinces low high dealer,
    (low <=? high)%float = false ->
    Filter.filter_data df start_date end_date provinces (low, high) dealer = [].
Proof.
  intros df start_date end_date provinces low high dealer Hinv.
  rewrite filter_data_unfold. apply filter_none. intros r _.
  destruct (Filter.spec_matchesb provinces low high dealer r) eqn:Hm; [| reflexivity].
  apply spec_matchesb_bounds in Hm. destruct Hm as [_ [_ Hle]]. congruence.
Qed.

Lemma filter_data_inverted_range_witness :
  (5.0 <=? 3.0)%float = false
  /\ Filter.filter_data [dealer_on_35; dealer_bc_48; dealer_on_20]
       (mkdate 2022 1 1) (mkdate 2024 1 1) ["ON"; "BC"] (5.0, 3.0)%float All_Dealers
     = [].
Proof.
  split; [reflexivity |].
  apply (filter_data_inverted_range [dealer_on_35; dealer_bc_48; dealer_on_20]).
  reflexivity.
Defined.

(** X2: filtering the result of one call with other criteria keeps exactly
    the rows of the table that meet both sets of criteria, and the order in
    which the two filters are applied does not matter. *)
Theorem filter_data_composes :
  forall df start_date end_date provinces low high dealer
         start_date' end_date' provinces' low' high' dealer',
    let first := Filter.filter_data df start_date end_date provinces (low, high) dealer in
    let second := Filter.filter_data df start_date' end_date' provinces' (low', high') dealer' in
    Filter.filter_data first start_date' end_date' provinces' (low', high') dealer'
    = Filter.filter_data second start_date end_date provinces (low, high) dealer
    /\ Filter.filter_data first start_date' end_date' provinces' (low', high') dealer'
       = filter (fun r => Filter.spec_matchesb provinces low high dealer r
                          && Filter.spec_matchesb provinces' low' high' dealer' r) df
    /\ forall r,
         In r (Filter.filter_data first start_date' end_date' provinces' (low', high') dealer')
         <-> In r df
             /\ Filter.spec_matches provinces low high dealer r
             /\ Filter.spec_matches provinces' low' high' dealer' r.
Proof.
  intros. subst first second. rewrite !filter_data_unfold, !filter_filter.
  split; [| split].
  - apply filter_ext. intros r. apply andb_comm.
  - reflexivity.
  - intros r. rewrite filter_In, andb_true_iff, !spec_matchesb_iff. tauto.
Qed.

(** X3: widening the criteria never loses a row: when the provinces of one
    call are among those of another and its rating range lies inside the
    other's, every row it returns for a dealer is returned by the other
    call for the same dealer, and by the other call for all dealers. *)
Theorem filter_data_monotone :
  forall df start_date end_date provinces provinces' low high low' high' dealer r,
    incl provinces provinces' ->
    (low' <=? low)%float = true ->
    (high <=? high')%float = true ->
    In r (Filter.filter_data df start_date end_date provinces (low, high) dealer) ->
    In r (Filter.filter_data df start_date end_date provinces' (low', high') dealer)
    /\ In r (Filter.filter_data df start_date end_date provinces' (low', high') All_Dealers).
Proof.
  intros df start_date end_date provinces provinces' low high low' high' dealer r
         Hincl Hlow Hhigh Hin.
  rewrite !filter_data_unfold, !filter_In in *.
  destruct Hin as [Hdf Hm]. apply spec_matchesb_iff in Hm.
  destruct Hm as [[Hl Hh] [Hp Hd]].
  assert (Hl' : (low' <=? Rating r)%float = true) by (eapply leb_trans; eassumption).
  assert (Hh' : (Rating r <=? high')%float = true) by (eapply leb_trans; eassumption).
  split; (split; [assumption |]); apply spec_matchesb_iff; unfold Filter.spec_matches;
    repeat split; auto.
  intros Hne. now contradiction Hne.
Qed.

Lemma filter_data_monotone_witness :
  In dealer_on_35
     (Filter.filter_data [dealer_on_35; dealer_bc_48; dealer_on_20]
        (mkdate 2022 1 1) (mkdate 2024 1 1) ["ON"; "BC"] (1.0, 5.0)%float "North Motors")
  /\ In dealer_on_35
        (Filter.filter_data [dealer_on_35; dealer_bc_48; dealer_on_20]
           (mkdate 2022 1 1) (mkdate 2024 1 1) ["ON"; "BC"] (1.0, 5.0)%float All_Dealers).
Proof.
  apply (filter_data_monotone [dealer_on_35; dealer_bc_48; dealer_on_20]
           (mkdate 2022 1 1) (mkdate 2024 1 1) ["ON"] ["ON"; "BC"]
           3.0%float 4.0%float 1.0%float 5.0%float "North Motors" dealer_on_35).
  - intros p [<- | []]. now left.
  - reflexivity.
  - reflexivity.
  - now left.
Defined.

(* ================================================================== *)
(** * Further properties of the sentiment tally *)

Section SentimentMore.

Import Sentiment.

Variable polarity : string -> float.

Lemma classified_app (l : label) (reviews reviews' : list string) :
  classified polarity l (reviews ++ reviews')
  = (classified polarity l reviews + classified polarity l reviews')%nat.
Proof. unfold classified. now rewrite filter_app, length_app. Qed.

Lemma classified_permutation (l : label) (reviews reviews' : list string) :
  Permutation reviews reviews' ->
  classified polarity l reviews = classified polarity l reviews'.
Proof.
  unfold classified. induction 1 as [| x l1 l2 _ IH | x y l1 | l1 l2 l3 _ IH1 _ IH2]; simpl.
  - reflexivity.
  - destruct (label_eqb (classify polarity x) l); simpl; now rewrite IH.
  - destruct (label_eqb (classify polarity y) l), (label_eqb (classify polarity x) l);
      reflexivity.
  - now rewrite IH1.
Qed.

Lemma analyze_sentiment_counts (reviews : list string) :
  analyze_sentiment polarity reviews
  = mksummary (classified polarity Positive reviews)
              (classified polarity Neutral reviews)
              (classified polarity Negative reviews).
Proof. unfold analyze_sentiment. now rewrite analyze_sentiment_from. Qed.

End SentimentMore.

(** X4: the tally of two review lists put together is the sum, bucket by
    bucket, of their tallies, and the tally of a list does not depend on
    the order of its reviews. *)
Theorem analyze_sentiment_additive :
  forall (polarity : string -> float) (reviews reviews' : list string),
    (let a := Sentiment.analyze_sentiment polarity reviews in
     let b := Sentiment.analyze_sentiment polarity reviews' in
     Sentiment.analyze_sentiment polarity (reviews ++ reviews')
     = Sentiment.mksummary
         (Sentiment.n_positive a + Sentiment.n_positive b)
         (Sentiment.n_neutral a + Sentiment.n_neutral b)
         (Sentiment.n_negative a + Sentiment.n_negative b))
    /\ forall shuffled,
         Permutation reviews shuffled ->
         Sentiment.analyze_sentiment polarity shuffled
         = Sentiment.analyze_sentiment polarity reviews.
Proof.
  intros polarity reviews reviews'. split.
  - cbv zeta. rewrite !analyze_sentiment_counts. simpl.
    now rewrite !classified_app.
  - intros shuffled Hperm. rewrite !analyze_sentiment_counts.
    now rewrite !(classified_permutation polarity _ _ _ Hperm).
Qed.

(* ================================================================== *)
(** * Further properties of the review trend *)

Section TrendMore.

Import Aggregator.

Local Open Scope Z_scope.

(** The sum of the counts of a table. *)
Lemma total_tally (p : period) (counts : list (period * nat)) :
  list_sum (map snd (tally p counts)) = S (list_sum (map snd counts)).
Proof.
  induction counts as [| [q n] counts IH]; simpl; [reflexivity |].
  destruct (p =? q); simpl; [reflexivity |]. rewrite IH. lia.
Qed.

Lemma total_tally_all (values : list period) (counts : list (period * nat)) :
  list_sum (map snd (fold_left (fun counts p => tally p counts) values counts))
  = (list_sum (map snd counts) + List.length values)%nat.
Proof.
  revert counts. induction values as [| p values IH]; intros counts; simpl.
  - lia.
  - rewrite IH, total_tally. lia.
Qed.

Lemma list_sum_permutation (l l' : list nat) :
  Permutation l l' -> list_sum l = list_sum l'.
Proof. induction 1; simpl; lia. Qed.

Lemma review_counts_total (values : list period) :
  list_sum (map snd (sort_index (value_counts values))) = List.length values.
Proof.
  rewrite (list_sum_permutation _ (map snd (fold_left (fun counts p => tally p counts) values []))).
  - now rewrite total_tally_all.
  - apply Permutation_map. rewrite sort_index_perm. apply value_counts_perm.
Qed.

(** Every period is the period of a year and a month from 1 to 12. *)
Lemma period_decompose (p : period) :
  period_of (period_year p) (period_month p) = p /\ 1 <= period_month p <= 12.
Proof.
  unfold period_of, period_year, period_month. Z.div_mod_to_equations. lia.
Qed.

Lemma month_length_positive (leap : bool) (month : Z) :
  1 <= month <= 12 -> 0 < month_length leap month.
Proof.
  intros Hm.
  destruct (month_cases month Hm)
    as [-> | [-> | [-> | [-> | [-> | [-> | [-> | [-> | [-> | [-> | [-> | ->]]]]]]]]]]];
    destruct leap; reflexivity.
Qed.

(** Periods start one after the other. *)
Lemma period_start_next (p : period) : period_start p < period_start (p + 1).
Proof.
  destruct (period_decompose p) as [Hp Hm].
  pose proof (next_month_start (period_year p) (period_month p) Hm) as Hnext.
  rewrite Hp in Hnext.
  pose proof (month_length_positive (is_leapyear (period_year p)) _ Hm).
  unfold period_start. rewrite Hnext. lia.
Qed.

Lemma period_start_le (p q : period) : p <= q -> period_start p <= period_start q.
Proof.
  intros Hpq. replace q with (p + Z.of_nat (Z.to_nat (q - p))) by lia.
  induction (Z.to_nat (q - p)) as [| n IH].
  - replace (p + Z.of_nat 0) with p by lia. lia.
  - pose proof (period_start_next (p + Z.of_nat n)).
    replace (p + Z.of_nat (S n)) with (p + Z.of_nat n + 1) by lia. lia.
Qed.

End TrendMore.

(** X5: the counts of the line chart add up to the number of review
    timestamps of the filtered rows: when the chart is drawn, no review is
    lost and none is counted twice. *)
Theorem review_trends_total :
  forall (filtered_df : DataFrame) (review_counts : list (Z * nat)),
    Aggregator.review_trends filtered_df = Returned (Aggregator.LineChart review_counts) ->
    list_sum (map snd review_counts)
    = List.length (List.concat (map ReviewTime filtered_df)).
Proof.
  intros filtered_df review_counts. unfold Aggregator.review_trends.
  rewrite collect_review_times_concat.
  destruct (List.concat (map ReviewTime filtered_df)) as [| t rest]; [discriminate |].
  unfold Aggregator.to_datetime.
  destruct (forallb Aggregator.representable (t :: rest)); [| discriminate].
  intros H. injection H as <-.
  rewrite review_counts_total. simpl. now rewrite length_map.
Qed.

Lemma review_trends_total_witness :
  list_sum (map snd [(624%Z, 2%nat); (625%Z, 1%nat)])
  = List.length (List.concat (map ReviewTime january_february)).
Proof.
  apply (review_trends_total january_february [(624%Z, 2%nat); (625%Z, 1%nat)]).
  vm_compute. reflexivity.
Defined.

(** X6: the conversion of timestamps to months keeps their order: a later
    timestamp never falls in an earlier month, so the chronological order
    of the chart is the order of the reviews themselves. *)
Theorem to_period_M_monotone :
  forall t t' : Z,
    (t <= t')%Z -> (Aggregator.to_period_M t <= Aggregator.to_period_M t')%Z.
Proof.
  intros t t' Hle.
  destruct (Z_le_gt_dec (Aggregator.to_period_M t) (Aggregator.to_period_M t'))
    as [H | H]; [exact H | exfalso].
  pose proof (to_period_M_bracket t) as [Hlo _].
  pose proof (to_period_M_bracket t') as [_ Hhi].
  pose proof (period_start_le (Aggregator.to_period_M t' + 1) (Aggregator.to_period_M t)
                ltac:(lia)).
  lia.
Qed.

Lemma to_period_M_monotone_witness :
  (Aggregator.to_period_M 1642204800 <= Aggregator.to_period_M 1643673600)%Z.
Proof. apply (to_period_M_monotone 1642204800 1643673600). discriminate. Defined.

(* ================================================================== *)
(** * Further properties of the geocoding cache *)

Section GeocodeMore.

Import Cachetools Geocode.

Lemma Qltb_ge (x y : Q) : (y <= x)%Q -> Qltb x y = false.
Proof.
  intros Hle. unfold Qltb. apply negb_false_iff. now apply Qle_bool_iff.
Qed.

Variable geocoding_api : nat -> postal -> api_reply.

(** A call that finds an item past its expiry goes to the service. *)
Lemma geocode_expired (t_get t_set : Q) (postal_code : postal) (w : world)
    (l : link postal coords) :
  find (has_key postal_eqb postal_code) (cache w) = Some l ->
  (l_expires l <= t_get)%Q ->
  requests (snd (geocode_postal_code geocoding_api t_get t_set postal_code w))
  = requests w ++ [postal_code].
Proof.
  intros Hfind Hold. unfold geocode_postal_code, getitem.
  rewrite Hfind, (Qltb_ge _ _ Hold).
  destruct (geocoding_api (List.length (requests w)) postal_code); reflexivity.
Qed.

End GeocodeMore.

(** X7: every answer of the geocoding service is memoised, a found
    location like a failed lookup: when a call reaches the service and gets
    a body back, a second call for the same postal code less than 86400
    seconds after the store returns the same coordinates and sends no
    request; the coordinates of a found location are those of the first
    result. *)
Theorem lookup_is_memoised :
  forall (geocoding_api : nat -> Geocode.postal -> Geocode.api_reply)
         (t_get t_set t_again t_set' : Q) (postal_code : Geocode.postal)
         (w : Geocode.world) (status : string) (results : list (float * float)),
    fst (Cachetools.getitem Geocode.postal_eqb t_get postal_code (Geocode.cache w)) = None ->
    geocoding_api (List.length (Geocode.requests w)) postal_code
    = Geocode.ApiBody status results ->
    (t_again < t_set + 86400)%Q ->
    exists v w1 w2,
      Geocode.geocode_postal_code geocoding_api t_get t_set postal_code w = (Returned v, w1)
      /\ Geocode.geocode_postal_code geocoding_api t_again t_set' postal_code w1
         = (Returned v, w2)
      /\ Geocode.requests w1 = Geocode.requests w ++ [postal_code]
      /\ Geocode.requests w2 = Geocode.requests w1
      /\ (forall lat lng rest,
             status = "OK" -> results = (lat, lng) :: rest -> v = (Some lat, Some lng)).
Proof.
  intros api t_get t_set t_again t_set' postal_code w status results Hmiss Hreply Hsoon.
  destruct (geocode_miss api t_get t_set postal_code w status results Hmiss Hreply)
    as [w1 [Hcall [Hsent Hstored]]].
  destruct (geocode_hit api t_again t_set' postal_code w1 _ Hstored Hsoon)
    as [w2 [Hcall2 Hsent2]].
  exists (Geocode.locate status results), w1, w2.
  repeat split; try assumption.
  intros lat lng rest -> ->. reflexivity.
Qed.

Lemma lookup_is_memoised_witness :
  exists v w1 w2,
    Geocode.geocode_postal_code api_found 0 1 some_postal_code Geocode.initial_world
    = (Returned v, w1)
    /\ Geocode.geocode_postal_code api_found 86400 86400 some_postal_code w1
       = (Returned v, w2)
    /\ Geocode.requests w1 = Geocode.requests Geocode.initial_world ++ [some_postal_code]
    /\ Geocode.requests w2 = Geocode.requests w1
    /\ (forall lat lng rest,
           "OK" = "OK" -> [(43.64, -79.39)%float] = (lat, lng) :: rest ->
           v = (Some lat, Some lng)).
Proof.
  apply (lookup_is_memoised api_found 0 1 86400 86400 some_postal_code
           Geocode.initial_world "OK" [(43.64, -79.39)%float]);
    reflexivity.
Defined.

(** X8: a cached answer is not used past its lifetime: when the second
    call for a postal code comes 86400 seconds or more after the store, it
    sends exactly one new request to the service, whatever the service
    then answers. *)
Theorem expired_entry_is_refetched :
  forall (geocoding_api : nat -> Geocode.postal -> Geocode.api_reply)
         (t_get t_set t_again t_set' : Q) (postal_code : Geocode.postal)
         (w : Geocode.world) (status : string) (results : list (float * float)),
    fst (Cachetools.getitem Geocode.postal_eqb t_get postal_code (Geocode.cache w)) = None ->
    geocoding_api (List.length (Geocode.requests w)) postal_code
    = Geocode.ApiBody status results ->
    (t_set + 86400 <= t_again)%Q ->
    let w1 := snd (Geocode.geocode_postal_code geocoding_api t_get t_set postal_code w) in
    let w2 := snd (Geocode.geocode_postal_code geocoding_api t_again t_set' postal_code w1) in
    Geocode.requests w2 = Geocode.requests w ++ [postal_code; postal_code].
Proof.
  intros api t_get t_set t_again t_set' postal_code w status results Hmiss Hreply Hlate.
  destruct (geocode_miss api t_get t_set postal_code w status results Hmiss Hreply)
    as [w1' [Hcall [Hsent Hstored]]].
  cbv zeta. rewrite Hcall. cbn [snd].
  rewrite (geocode_expired api t_again t_set' postal_code w1' _ Hstored Hlate).
  rewrite Hsent, <- app_assoc. reflexivity.
Qed.

Lemma expired_entry_is_refetched_witness :
  Geocode.requests
    (snd (Geocode.geocode_postal_code api_found 86401 86402 some_postal_code
            (snd (Geocode.geocode_postal_code api_found 0 1 some_postal_code
                    Geocode.initial_world))))
  = Geocode.requests Geocode.initial_world ++ [some_postal_code; some_postal_code].
Proof.
  apply (expired_entry_is_refetched api_found 0 1 86401 86402 some_postal_code
           Geocode.initial_world "OK" [(43.64, -79.39)%float]).
  - reflexivity.
  - reflexivity.
  - discriminate.
Defined.

(* ================================================================== *)
(** * The cache keeps its shape *)

Section CacheShapeFacts.

Import Cachetools CacheShape.

Variables K V : Type.
Variable K_eqb : K -> K -> bool.
Hypothesis K_eqb_spec : forall a b, K_eqb a b = true <-> a = b.

Variable maxsize : nat.
Variable ttl : Q.

Lemma keys_filter_In (f : link K V -> bool) (c : TTLCache K V) (k : K) :
  In k (keys (filter f c)) -> In k (keys c).
Proof.
  unfold keys. rewrite !in_map_iff. intros [l [Hk Hin]].
  apply filter_In in Hin. exists l. tauto.
Qed.

Lemma NoDup_keys_filter (f : link K V -> bool) (c : TTLCache K V) :
  NoDup (keys c) -> NoDup (keys (filter f c)).
Proof.
  induction c as [| l c IH]; intros Hnd; simpl; [constructor |].
  inversion Hnd as [| k ks Hfresh Hrest]; subst.
  destruct (f l); [| now apply IH].
  simpl. constructor; [| now apply IH].
  intros Hin. apply Hfresh. now apply keys_filter_In in Hin.
Qed.

Lemma length_filter_le {A} (f : A -> bool) (l : list A) :
  (List.length (filter f l) <= List.length l)%nat.
Proof. induction l as [| x l IH]; simpl; [lia |]. destruct (f x); simpl; lia. Qed.

Lemma make_room_fits (c : TTLCache K V) :
  (1 <= maxsize)%nat -> (List.length (make_room maxsize c) + 1 <= maxsize)%nat.
Proof.
  intros Hcap. induction c as [| l c IH]; [simpl; lia |].
  cbn [make_room]. destruct (maxsize <? List.length (l :: c) + 1)%nat eqn:Hfull.
  - exact IH.
  - apply Nat.ltb_ge in Hfull. exact Hfull.
Qed.

Lemma make_room_NoDup (c : TTLCache K V) :
  NoDup (keys c) -> NoDup (keys (make_room maxsize c)).
Proof.
  induction c as [| l c IH]; intros Hnd; [exact Hnd |].
  cbn [make_room]. destruct (maxsize <? List.length (l :: c) + 1)%nat; [| exact Hnd].
  apply IH. now inversion Hnd.
Qed.

Lemma keys_without (k : K) (c : TTLCache K V) :
  ~ In k (keys (filter (fun l => negb (has_key K_eqb k l)) c)).
Proof.
  unfold keys. rewrite in_map_iff. intros [l [Hk Hin]].
  apply filter_In in Hin. destruct Hin as [_ Hneg].
  unfold has_key in Hneg. rewrite Hk in Hneg.
  assert (K_eqb k k = true) by now apply K_eqb_spec.
  rewrite H in Hneg. discriminate.
Qed.

Lemma length_without (k : K) (c : TTLCache K V) :
  existsb (has_key K_eqb k) c = true ->
  (List.length (filter (fun l => negb (has_key K_eqb k l)) c) + 1 <= List.length c)%nat.
Proof.
  induction c as [| l c IH]; simpl; [discriminate |].
  destruct (has_key K_eqb k l); simpl.
  - intros _. pose proof (length_filter_le (fun l => negb (has_key K_eqb k l)) c). lia.
  - intros H. specialize (IH H). lia.
Qed.

(** A store leaves a well-formed cache well formed. *)
Lemma setitem_well_formed (time : Q) (k : K) (v : V) (c : TTLCache K V) :
  well_formed maxsize c -> well_formed maxsize (setitem K_eqb maxsize ttl time k v c).
Proof.
  intros [Hnd Hlen]. unfold setitem.
  assert (Hlive : well_formed maxsize (expire time c)).
  { split; [now apply NoDup_keys_filter |].
    pose proof (length_filter_le (fun l => Qltb time (l_expires l)) c).
    unfold expire. lia. }
  destruct (maxsize <? 1)%nat eqn:Hcap; [exact Hlive |].
  apply Nat.ltb_ge in Hcap. destruct Hlive as [Hnd' Hlen'].
  set (live := expire time c) in *.
  assert (Hkept : NoDup (keys (if existsb (has_key K_eqb k) live
                               then live else make_room maxsize live))).
  { destruct (existsb (has_key K_eqb k) live); [assumption | now apply make_room_NoDup]. }
  split.
  - unfold keys. rewrite map_app. simpl.
    apply NoDup_app; [now apply NoDup_keys_filter | repeat constructor; intros [] |].
    intros k' Hin [<- | []]. exact (keys_without _ _ Hin).
  - rewrite length_app. simpl.
    destruct (existsb (has_key K_eqb k) live) eqn:Hex.
    + pose proof (length_without k live Hex). lia.
    + pose proof (make_room_fits live Hcap).
      pose proof (length_filter_le (fun l => negb (has_key K_eqb k l))
                    (make_room maxsize live)).
      lia.
Qed.

Lemma move_to_end_perm (k : K) (c : TTLCache K V) :
  Permutation (move_to_end K_eqb k c) c.
Proof.
  unfold move_to_end. induction c as [| l c IH]; simpl; [reflexivity |].
  destruct (has_key K_eqb k l); simpl.
  - rewrite <- Permutation_middle. now constructor.
  - now constructor.
Qed.

(** A lookup leaves a well-formed cache well formed. *)
Lemma getitem_well_formed (time : Q) (k : K) (c : TTLCache K V) :
  well_formed maxsize c -> well_formed maxsize (snd (getitem K_eqb time k c)).
Proof.
  intros [Hnd Hlen]. unfold getitem.
  destruct (find (has_key K_eqb k) c) as [l |]; [| now split].
  assert (Hwf : well_formed maxsize (move_to_end K_eqb k c)).
  { pose proof (move_to_end_perm k c) as Hperm. split.
    - eapply Permutation_NoDup; [| exact Hnd].
      apply Permutation_map. now apply Permutation_sym.
    - now rewrite (Permutation_length Hperm). }
  destruct (Qltb time (l_expires l)); exact Hwf.
Qed.

End CacheShapeFacts.

Section GeocodeShapeFacts.

Import Cachetools Geocode CacheShape.

Lemma postal_eqb_spec (a b : postal) : postal_eqb a b = true <-> a = b.
Proof.
  destruct a as [x |], b as [y |]; simpl; try (split; congruence).
  rewrite String.eqb_eq. split; congruence.
Qed.

Lemma locate_paired (status : string) (results : list (float * float)) :
  paired (locate status results).
Proof.
  unfold locate. destruct results as [| [lat lng] rest]; [reflexivity |].
  destruct (String.eqb status "OK"); reflexivity.
Qed.

Lemma Forall_filter {A} (P : A -> Prop) (f : A -> bool) (l : list A) :
  Forall P l -> Forall P (filter f l).
Proof.
  intros Hall. apply Forall_forall. intros x Hin. apply filter_In in Hin.
  rewrite Forall_forall in Hall. now apply Hall.
Qed.

Lemma Forall_make_room {K V} (P : link K V -> Prop) (cap : nat) (c : TTLCache K V) :
  Forall P c -> Forall P (make_room cap c).
Proof.
  induction 1 as [| l c Hl Hc IH]; [constructor |].
  cbn [make_room]. destruct (cap <? List.length (l :: c) + 1)%nat; [exact IH |].
  now constructor.
Qed.

Lemma setitem_paired (time : Q) (k : postal) (v : coords) (c : TTLCache postal coords) :
  paired v -> values_paired c ->
  values_paired (setitem postal_eqb cache_maxsize cache_ttl time k v c).
Proof.
  intros Hv Hc. unfold values_paired, setitem.
  assert (Hlive : Forall (fun l => paired (l_value l)) (expire time c))
    by now apply Forall_filter.
  destruct (cache_maxsize <? 1)%nat; [exact Hlive |].
  apply Forall_app. split; [| now repeat constructor].
  apply Forall_filter.
  destruct (existsb (has_key postal_eqb k) (expire time c));
    [assumption | now apply Forall_make_room].
Qed.

Lemma getitem_paired (time : Q) (k : postal) (c : TTLCache postal coords) :
  values_paired c ->
  values_paired (snd (getitem postal_eqb time k c))
  /\ forall v, fst (getitem postal_eqb time k c) = Some v -> paired v.
Proof.
  intros Hc. unfold getitem.
  destruct (find (has_key postal_eqb k) c) as [l |] eqn:Hfind.
  - assert (Hmoved : values_paired (move_to_end postal_eqb k c)).
    { unfold values_paired. eapply Permutation_Forall; [| exact Hc].
      apply Permutation_sym, move_to_end_perm. }
    apply find_some in Hfind. destruct Hfind as [Hin _].
    unfold values_paired in Hc. rewrite Forall_forall in Hc.
    destruct (Qltb time (l_expires l)); simpl; split; try assumption.
    + intros v Hv. injection Hv as <-. now apply Hc.
    + discriminate.
  - simpl. split; [assumption | discriminate].
Qed.

Variable geocoding_api : nat -> postal -> api_reply.

(** One call keeps the shape of the cache and returns paired coordinates. *)
Lemma geocode_keeps_shape (t_get t_set : Q) (postal_code : postal) (w : world) :
  let step := geocode_postal_code geocoding_api t_get t_set postal_code w in
  (well_formed cache_maxsize (cache w) -> well_formed cache_maxsize (cache (snd step)))
  /\ (values_paired (cache w) ->
      values_paired (cache (snd step))
      /\ forall v, fst step = Returned v -> paired v).
Proof.
  unfold geocode_postal_code.
  pose proof (getitem_well_formed postal coords postal_eqb cache_maxsize t_get postal_code
                (cache w)) as Hwf.
  pose proof (getitem_paired t_get postal_code (cache w)) as Hpair.
  destruct (getitem postal_eqb t_get postal_code (cache w)) as [[v |] c]; simpl in *.
  - split; [assumption |]. intros Hc. destruct (Hpair Hc) as [Hc' Hv].
    split; [assumption |]. intros v' Hv'. injection Hv' as <-. now apply Hv.
  - destruct (geocoding_api (List.length (requests w)) postal_code) as [e | status results];
      simpl.
    + split; [assumption |]. intros Hc. destruct (Hpair Hc) as [Hc' _].
      split; [assumption | discriminate].
    + split.
      * intros H. apply setitem_well_formed; [exact postal_eqb_spec | now apply Hwf].
      * intros Hc. destruct (Hpair Hc) as [Hc' _]. split.
        -- apply setitem_paired; [apply locate_paired | assumption].
        -- intros v' Hv'. injection Hv' as <-. apply locate_paired.
Qed.

Variable clock : nat -> Q * Q.

Lemma enrich_from_shape (rows : DataFrame) :
  forall (index : nat) (w : world),
    let '(rows', w', e) := enrich_from geocoding_api clock index rows w in
    (well_formed cache_maxsize (cache w) -> well_formed cache_maxsize (cache w'))
    /\ (values_paired (cache w) ->
        values_paired (cache w')
        /\ Forall2 (row_step (match e with None => true | Some _ => false end)) rows rows').
Proof.
  induction rows as [| r rest IH]; intros index w; simpl.
  - split; [tauto |]. intros Hc. split; [assumption | constructor].
  - unfold enrich_row.
    destruct (isna (Latitude r)) eqn:Hlat.
    + pose proof (geocode_keeps_shape (fst (clock index)) (snd (clock index))
                    (PostalCode r) w) as Hstep.
      cbv zeta in Hstep. destruct Hstep as [Hwf Hpair].
      destruct (geocode_postal_code geocoding_api (fst (clock index)) (snd (clock index))
                  (PostalCode r) w) as [[v | e] w1]; simpl in *.
      * specialize (IH (S index) w1).
        destruct (enrich_from geocoding_api clock (S index) rest w1) as [[rest' w2] e2].
        destruct IH as [IHwf IHpair].
        split; [tauto |]. intros Hc. destruct (Hpair Hc) as [Hc1 Hv].
        destruct (IHpair Hc1) as [Hc2 Hrows]. split; [assumption |].
        constructor; [| assumption].
        unfold row_step. rewrite Hlat. left. unfold row_paired. simpl.
        now apply Hv.
      * split; [assumption |]. intros Hc. destruct (Hpair Hc) as [Hc1 _].
        split; [assumption |].
        constructor; [unfold row_step; rewrite Hlat; now right |].
        clear. induction rest as [| r0 rest IH]; constructor; [| assumption].
        unfold row_step. destruct (isna (Latitude r0)); [now right | reflexivity].
    + specialize (IH (S index) w).
      destruct (enrich_from geocoding_api clock (S index) rest w) as [[rest' w2] e2].
      destruct IH as [IHwf IHpair].
      split; [assumption |]. intros Hc. destruct (IHpair Hc) as [Hc2 Hrows].
      split; [assumption |].
      constructor; [| assumption]. unfold row_step. now rewrite Hlat.
Qed.

End GeocodeShapeFacts.

(** X9: the cache never outgrows its capacity and never holds two items
    for one postal code: a cache with at most 100 items and distinct keys
    is still so after any call of [geocode_postal_code], whatever the
    service answers, and after the whole enrichment loop. *)
Theorem cache_stays_well_formed :
  forall (geocoding_api : nat -> Geocode.postal -> Geocode.api_reply)
         (clock : nat -> Q * Q) (w : Geocode.world),
    CacheShape.well_formed 100 (Geocode.cache w) ->
    (forall t_get t_set postal_code,
        CacheShape.well_formed 100
          (Geocode.cache
             (snd (Geocode.geocode_postal_code geocoding_api t_get t_set postal_code w))))
    /\ (forall df,
           CacheShape.well_formed 100
             (Geocode.cache (snd (fst (Geocode.enrich geocoding_api clock df w))))).
Proof.
  intros api clock w Hwf. split.
  - intros t_get t_set postal_code.
    now apply (geocode_keeps_shape api t_get t_set postal_code w).
  - intros df. unfold Geocode.enrich.
    pose proof (enrich_from_shape api clock df 0%nat w) as Hloop.
    destruct (Geocode.enrich_from api clock 0 df w) as [[df' w'] e].
    simpl. now apply Hloop.
Qed.

Lemma cache_stays_well_formed_witness :
  CacheShape.well_formed 100 (Geocode.cache Geocode.initial_world)
  /\ (forall t_get t_set postal_code,
         CacheShape.well_formed 100
           (Geocode.cache
              (snd (Geocode.geocode_postal_code api_found t_get t_set postal_code
                      Geocode.initial_world))))
  /\ (forall df,
         CacheShape.well_formed 100
           (Geocode.cache
              (snd (fst (Geocode.enrich api_found clock_by_ten df Geocode.initial_world))))).
Proof.
  assert (H : CacheShape.well_formed 100 (Geocode.cache Geocode.initial_world))
    by (split; [constructor | simpl; lia]).
  split; [exact H |].
  exact (cache_stays_well_formed api_found clock_by_ten Geocode.initial_world H).
Defined.

(** X10: geocoding never leaves a row with one coordinate only. When the
    cached coordinates are pairs (both present or both absent, as in the
    empty cache of a fresh process), the loop keeps every row that has a
    latitude as it is, and gives every row without latitude that it
    reaches either both coordinates or none; when the loop runs to its end
    it has reached them all. *)
Theorem enrichment_pairs_coordinates :
  forall (geocoding_api : nat -> Geocode.postal -> Geocode.api_reply)
         (clock : nat -> Q * Q) (df : DataFrame) (w : Geocode.world),
    CacheShape.values_paired (Geocode.cache w) ->
    let '(df', w', e) := Geocode.enrich geocoding_api clock df w in
    CacheShape.values_paired (Geocode.cache w')
    /\ forall i r r',
         nth_error df i = Some r -> nth_error df' i = Some r' ->
         CacheShape.row_step (match e with None => true | Some _ => false end) r r'.
Proof.
  intros api clock df w Hc. unfold Geocode.enrich.
  pose proof (enrich_from_shape api clock df 0%nat w) as Hloop.
  destruct (Geocode.enrich_from api clock 0 df w) as [[df' w'] e].
  destruct Hloop as [_ Hpair]. destruct (Hpair Hc) as [Hc' Hrows].
  split; [assumption |].
  intros i r r' Hi Hi'.
  destruct (Forall2_nth_error_l _ _ _ Hrows i r Hi) as [r'' [Hi'' Hstep]].
  rewrite Hi' in Hi''. injection Hi'' as <-. exact Hstep.
Qed.

Lemma enrichment_pairs_coordinates_witness :
  CacheShape.values_paired (Geocode.cache Geocode.initial_world)
  /\ let '(df', w', e) :=
       Geocode.enrich api_zero_results clock_by_ten
         [located_row; unlocated_row; unaddressed_row] Geocode.initial_world in
     CacheShape.values_paired (Geocode.cache w')
     /\ forall i r r',
          nth_error [located_row; unlocated_row; unaddressed_row] i = Some r ->
          nth_error df' i = Some r' ->
          CacheShape.row_step (match e with None => true | Some _ => false end) r r'.
Proof.
  assert (H : CacheShape.values_paired (Geocode.cache Geocode.initial_world))
    by constructor.
  split; [exact H |].
  exact (enrichment_pairs_coordinates api_zero_results clock_by_ten
           [located_row; unlocated_row; unaddressed_row] Geocode.initial_world H).
Defined.

(* ================================================================== *)
(** * Further properties of the live refresh *)

Section LiveRefreshMore.

Import LiveRefresh RefreshShape.

Variable places_api : nat -> string -> http_reply.

Lemma failed_with_not_updated (status_code : Z) : failed_with status_code <> "Updated".
Proof. unfold failed_with. simpl. discriminate. Qed.

Lemma absorb_changed (d d' : dealer) (pid : string) (n : nat) (status_code : Z) (b : body) :
  usable_place_id d = Some pid ->
  places_api n pid = HttpResponse status_code b ->
  absorb status_code b d = Returned d' ->
  changed_by places_api d d'.
Proof.
  intros Hpid Hreply. unfold absorb.
  destruct (Z.eqb_spec status_code 200) as [-> | Hcode].
  - destruct b as [| [r |]]; [discriminate | |]; intros H; injection H as <-.
    + right. exists n, pid, r. repeat split; assumption.
    + left. eexists. split; [reflexivity | discriminate].
  - intros H. injection H as <-. left. eexists. split; [reflexivity |].
    apply failed_with_not_updated.
Qed.

(** The loop, whatever the service does: requests go out in list order,
    one per dealer with a usable identifier, until the list ends or a
    request raises. *)
Lemma refresh_loop_shape (dealers : list dealer) :
  forall updated_dealers sent,
    let '(result, sent') := refresh_loop places_api dealers updated_dealers sent in
    exists asked,
      sent' = sent ++ asked
      /\ (exists rest, place_ids dealers = asked ++ rest)
      /\ match result with
         | Returned all =>
             asked = place_ids dealers
             /\ exists updated,
                  all = updated_dealers ++ updated
                  /\ Forall2 (changed_by places_api) dealers updated
         | Raised e =>
             exists before pid,
               asked = before ++ [pid]
               /\ (places_api (List.length (sent ++ before)) pid = HttpFailure e
                   \/ (e = JSONDecodeError
                       /\ places_api (List.length (sent ++ before)) pid
                          = HttpResponse 200 NotJson))
         end.
Proof.
  induction dealers as [| d rest IH]; intros acc sent; simpl.
  - exists []. rewrite app_nil_r. split; [reflexivity |].
    split; [now exists [] |]. split; [reflexivity |].
    exists []. split; [now rewrite app_nil_r | constructor].
  - destruct (usable_place_id d) as [pid |] eqn:Hpid.
    + destruct (places_api (List.length sent) pid) as [e | status_code b] eqn:Hreply.
      * exists [pid]. split; [reflexivity |]. split; [now exists (place_ids rest) |].
        exists [], pid. split; [reflexivity |]. left. now rewrite app_nil_r.
      * destruct (absorb status_code b d) as [d' | e] eqn:Habs.
        -- specialize (IH (acc ++ [d']) (sent ++ [pid])).
           destruct (refresh_loop places_api rest (acc ++ [d']) (sent ++ [pid]))
             as [result sent'].
           destruct IH as [asked [Hsent [[more Hpre] Hres]]].
           exists (pid :: asked). split; [now rewrite Hsent, <- app_assoc |].
           split; [exists more; simpl; now rewrite Hpre |].
           destruct result as [all | e].
           ++ destruct Hres as [Hall [updated [Heq Hrel]]].
              split; [simpl; now rewrite Hall |].
              exists (d' :: updated). split; [now rewrite Heq, <- app_assoc |].
              constructor; [| assumption].
              eapply absorb_changed; eassumption.
           ++ destruct Hres as [before [pid' [Hasked Hfail]]].
              exists (pid :: before), pid'. split; [simpl; now rewrite Hasked |].
              rewrite <- app_assoc in Hfail. exact Hfail.
        -- exists [pid]. split; [reflexivity |]. split; [now exists (place_ids rest) |].
           exists [], pid. split; [reflexivity |]. right. rewrite app_nil_r.
           unfold absorb in Habs.
           destruct (Z.eqb_spec status_code 200) as [-> | Hcode]; [| discriminate].
           destruct b as [| [r |]]; try discriminate.
           injection Habs as <-. now split.
    + specialize (IH (acc ++ [set_status "Failed: No Place ID" d]) sent).
      destruct (refresh_loop places_api rest (acc ++ [set_status "Failed: No Place ID" d]) sent)
        as [result sent'].
      destruct IH as [asked [Hsent [[more Hpre] Hres]]].
      exists asked. split; [assumption |]. split; [now exists more |].
      destruct result as [all | e]; [| exact Hres].
      destruct Hres as [Hall [updated [Heq Hrel]]].
      split; [assumption |].
      exists (set_status "Failed: No Place ID" d :: updated).
      split; [now rewrite Heq, <- app_assoc |].
      constructor; [| assumption].
      left. eexists. split; [reflexivity | discriminate].
Qed.

End LiveRefreshMore.

(** X11: whatever the place-details service does, the refresh sends its
    requests in list order, one for each dealer with a usable place
    identifier and none for the others, and stops at the first request
    that raises: the identifiers requested are a prefix of the usable
    identifiers of the list, all of them when the function returns, and
    when it raises the last request sent is the one that failed in
    transit or came back with status 200 and a body that does not
    decode. *)
Theorem live_refresh_requests :
  forall (places_api : nat -> string -> LiveRefresh.http_reply)
         (dealers : list LiveRefresh.dealer),
    let '(result, sent) := LiveRefresh.fetch_live_reviews places_api dealers in
    (exists rest, RefreshShape.place_ids dealers = sent ++ rest)
    /\ match result with
       | Returned updated =>
           sent = RefreshShape.place_ids dealers
           /\ List.length updated = List.length dealers
       | Raised e =>
           exists before pid,
             sent = before ++ [pid]
             /\ (places_api (List.length before) pid = LiveRefresh.HttpFailure e
                 \/ (e = JSONDecodeError
                     /\ places_api (List.length before) pid
                        = LiveRefresh.HttpResponse 200 LiveRefresh.NotJson))
       end.
Proof.
  intros api dealers. unfold LiveRefresh.fetch_live_reviews.
  pose proof (refresh_loop_shape api dealers [] []) as Hshape.
  destruct (LiveRefresh.refresh_loop api dealers [] []) as [result sent].
  destruct Hshape as [asked [Hsent [Hpre Hres]]]. simpl in Hsent. subst asked.
  split; [exact Hpre |].
  destruct result as [updated | e].
  - destruct Hres as [Hall [updated' [Heq Hrel]]]. simpl in Heq. subst updated'.
    split; [assumption |]. symmetry. eapply Forall2_length. exact Hrel.
  - exact Hres.
Qed.



(* ================================================================== *)
(** * Properties of the rating distribution *)

Section DistributionFacts.

Import Distribution.

Lemma total_tally_rating (x : float) (counts : list (float * nat)) :
  total (tally x counts) = S (total counts).
Proof.
  induction counts as [| [y n] counts IH]; simpl; [reflexivity |].
  destruct (x =? y)%float; simpl; [reflexivity |]. rewrite IH. lia.
Qed.

Lemma tally_rating_bars (column : list float) (x : float) (counts : list (float * nat)) :
  is_nan x = false -> In x column ->
  Forall (bar_of column) counts -> Forall (bar_of column) (tally x counts).
Proof.
  intros Hx Hin. induction 1 as [| [y n] counts Hy Hrest IH]; simpl.
  - constructor; [| constructor]. repeat split; simpl; try assumption. lia.
  - destruct (x =? y)%float; constructor; try assumption.
    destruct Hy as [H1 [H2 H3]]. repeat split; simpl in *; try assumption. lia.
Qed.

(** The table built by the counting loop over numbers of a column: as
    many occurrences as values, and bars of the column only. *)
Lemma tally_ratings (column values : list float) :
  incl values column ->
  Forall (fun x => is_nan x = false) values ->
  forall counts,
    let table := fold_left (fun counts x => tally x counts) values counts in
    total table = (total counts + List.length values)%nat
    /\ (Forall (bar_of column) counts -> Forall (bar_of column) table).
Proof.
  intros Hincl Hnum. revert Hincl.
  induction Hnum as [| x values Hx Hrest IH]; intros Hincl counts; simpl.
  - split; [lia | tauto].
  - assert (Hincl' : incl values column) by (intros y Hy; apply Hincl; now right).
    destruct (IH Hincl' (tally x counts)) as [Htotal Hkeep].
    split.
    + rewrite Htotal, total_tally_rating. lia.
    + intros Hc. apply Hkeep. apply tally_rating_bars; try assumption.
      apply Hincl. now left.
Qed.

Lemma dropna_numbers_only (values : list float) :
  Forall (fun x => is_nan x = false) (Aggregator.dropna values)
  /\ incl (Aggregator.dropna values) values.
Proof.
  unfold Aggregator.dropna. split.
  - apply Forall_forall. intros x Hin. apply filter_In in Hin.
    destruct Hin as [_ Hx]. now apply negb_true_iff in Hx.
  - intros x Hin. apply filter_In in Hin. tauto.
Qed.

Lemma insert_by_count_rating_perm (e : float * nat) (l : list (float * nat)) :
  Permutation (insert_by_count e l) (e :: l).
Proof.
  induction l as [| e' l IH]; simpl; [reflexivity |].
  destruct (snd e' <? snd e)%nat; [reflexivity |].
  rewrite IH. apply perm_swap.
Qed.

Lemma insert_by_index_rating_perm (e : float * nat) (l : list (float * nat)) :
  Permutation (insert_by_index e l) (e :: l).
Proof.
  induction l as [| e' l IH]; simpl; [reflexivity |].
  destruct (fst e <=? fst e')%float; [reflexivity |].
  rewrite IH. apply perm_swap.
Qed.

Lemma rating_distribution_perm (values : list float) :
  Permutation (sort_index (value_counts values))
              (fold_left (fun counts x => tally x counts) (Aggregator.dropna values) []).
Proof.
  unfold sort_index, value_counts.
  set (table := fold_left (fun counts x => tally x counts) (Aggregator.dropna values) []).
  transitivity (fold_right insert_by_count [] table).
  - induction (fold_right insert_by_count [] table) as [| e l IH]; simpl; [reflexivity |].
    rewrite insert_by_index_rating_perm. now constructor.
  - induction table as [| e l IH]; simpl; [reflexivity |].
    rewrite insert_by_count_rating_perm. now constructor.
Qed.

Lemma total_permutation (l l' : list (float * nat)) :
  Permutation l l' -> total l = total l'.
Proof. induction 1; simpl; lia. Qed.

(** Insertion keeps bars in ascending order of rating. *)
Lemma insert_by_index_ascending_ratings (e : float * nat) (l : list (float * nat)) :
  is_nan (fst e) = false ->
  Forall (fun e' => is_nan (fst e') = false) l ->
  ascending_ratings l -> ascending_ratings (insert_by_index e l).
Proof.
  unfold ascending_ratings. intros He Hnum.
  induction l as [| e' l IH]; intros Hs; simpl.
  - constructor; constructor.
  - inversion Hs as [| a b Hrest Hall]; subst.
    inversion Hnum as [| a b He' Hnum']; subst.
    destruct (fst e <=? fst e')%float eqn:Hle.
    + constructor; [assumption |].
      constructor; [assumption |].
      eapply Forall_impl; [| exact Hall]. intros a Ha. eapply leb_trans; eassumption.
    + constructor; [now apply IH |].
      eapply Permutation_Forall;
        [apply Permutation_sym, insert_by_index_rating_perm |].
      constructor; [| assumption].
      destruct (leb_total (fst e) (fst e') He He') as [H | H]; [congruence | assumption].
Qed.

Lemma sort_index_ascending_ratings (counts : list (float * nat)) :
  Forall (fun e => is_nan (fst e) = false) counts ->
  ascending_ratings (sort_index counts).
Proof.
  unfold sort_index. induction 1 as [| e l He Hl IH]; simpl.
  - constructor.
  - apply insert_by_index_ascending_ratings; try assumption.
    eapply Permutation_Forall; [| exact Hl].
    clear. induction l as [| e l IH]; simpl; [reflexivity |].
    rewrite insert_by_index_rating_perm. now constructor.
Qed.

End DistributionFacts.

(** X13: the bar chart of the overview agrees with its metrics: for the
    rows that [filter_data] returns, the bars of the rating distribution
    add up to the number shown as total dealers, they come in ascending
    order of rating, and each bar has a positive count and the rating of
    some filtered row. For any table the bars add up to the number of
    ratings that are numbers. *)
Theorem rating_distribution_bars :
  (forall filtered_df,
      Distribution.total (Distribution.rating_distribution filtered_df)
      = List.length (Aggregator.dropna (map Rating filtered_df))
      /\ Distribution.ascending_ratings (Distribution.rating_distribution filtered_df)
      /\ Forall (Distribution.bar_of (map Rating filtered_df))
                (Distribution.rating_distribution filtered_df))
  /\ forall df start_date end_date provinces low high dealer,
       let filtered_df :=
         Filter.filter_data df start_date end_date provinces (low, high) dealer in
       Distribution.total (Distribution.rating_distribution filtered_df)
       = Aggregator.total_dealers (Aggregator.national_overview filtered_df).
Proof.
  assert (Hany : forall filtered_df,
      Distribution.total (Distribution.rating_distribution filtered_df)
      = List.length (Aggregator.dropna (map Rating filtered_df))
      /\ Distribution.ascending_ratings (Distribution.rating_distribution filtered_df)
      /\ Forall (Distribution.bar_of (map Rating filtered_df))
                (Distribution.rating_distribution filtered_df)).
  { intros filtered_df. unfold Distribution.rating_distribution.
    pose proof (rating_distribution_perm (map Rating filtered_df)) as Hperm.
    destruct (dropna_numbers_only (map Rating filtered_df)) as [Hnum Hincl].
    destruct (tally_ratings (map Rating filtered_df) _ Hincl Hnum []) as [Htotal Hbars].
    specialize (Hbars (Forall_nil _)). simpl in Htotal.
    assert (Hall : Forall (Distribution.bar_of (map Rating filtered_df))
                     (Distribution.sort_index
                        (Distribution.value_counts (map Rating filtered_df)))).
    { eapply Permutation_Forall; [apply Permutation_sym; exact Hperm | exact Hbars]. }
    split; [| split].
    - now rewrite (total_permutation _ _ Hperm).
    - apply sort_index_ascending_ratings.
      assert (Hvc : Forall (Distribution.bar_of (map Rating filtered_df))
                      (Distribution.value_counts (map Rating filtered_df))).
      { eapply Permutation_Forall; [| exact Hbars].
        unfold Distribution.value_counts.
        clear. induction (fold_left _ _ _) as [| e l IH]; simpl; [reflexivity |].
        rewrite insert_by_count_rating_perm. now constructor. }
      eapply Forall_impl; [| exact Hvc]. intros e He. apply He.
    - exact Hall. }
  split; [exact Hany |].
  intros. subst filtered_df. destruct (Hany
    (Filter.filter_data df start_date end_date provinces (low, high) dealer)) as [Htotal _].
  rewrite Htotal. simpl.
  rewrite (dropna_bounded low); [apply length_map | apply filtered_ratings_bounded].
Qed.

(* ================================================================== *)
(** * Properties of the dealer insights and of the dealer map *)

Section InsightsFacts.

Import Insights.

Lemma filter_all {A} (f : A -> bool) (l : list A) :
  (forall x, In x l -> f x = true) -> filter f l = l.
Proof.
  induction l as [| x l IH]; intros Hall; simpl; [reflexivity |].
  rewrite (Hall x (or_introl eq_refl)). f_equal. apply IH. intros y Hy. apply Hall. now right.
Qed.

(** In the table filtered for one dealer, every row bears that name, so
    the selection made again by the insights tab changes nothing. *)
Lemma filtered_by_name df start_date end_date provinces low high dealer :
  dealer <> All_Dealers ->
  let filtered_df :=
    Filter.filter_data df start_date end_date provinces (low, high) dealer in
  filter (fun r => String.eqb (Dealer r) dealer) filtered_df = filtered_df.
Proof.
  intros Hne filtered_df. apply filter_all. intros r Hin.
  subst filtered_df. rewrite filter_data_unfold in Hin. apply filter_In in Hin.
  destruct Hin as [_ Hm]. apply spec_matchesb_iff in Hm.
  destruct Hm as [_ [_ Hname]]. apply String.eqb_eq. now apply Hname.
Qed.

(** The reviews gathered by the insights tab are as many as the review
    times that the loaded table holds for rows of that name. *)
Lemma reviews_of_length (dealers_data : list Load.raw_dealer) (dealer_filter : string) :
  List.length (reviews_of dealers_data dealer_filter)
  = List.length
      (List.concat
         (map ReviewTime
              (filter (fun r => String.eqb (Dealer r) dealer_filter)
                      (Load.load dealers_data)))).
Proof.
  unfold reviews_of, Load.load.
  induction dealers_data as [| d rest IH]; simpl; [reflexivity |].
  rewrite length_app, IH.
  destruct (String.eqb (Load.actual_name d) dealer_filter); simpl.
  - rewrite length_app. f_equal.
    destruct (Load.reviews d); simpl; [reflexivity | now rewrite !length_map].
  - reflexivity.
Qed.

End InsightsFacts.

(** X14: in the insights tab, for a selected dealer and the table that
    [filter_data] returns for that dealer, the tab raises IndexError
    exactly when the filter left no row (the dealer's rating is outside
    the range, or its province is not selected); otherwise it shows the
    rating and review count of the first filtered row, which bears the
    selected name and has its rating within the range. *)
Theorem dealer_insights_on_filtered :
  forall (polarity : string -> float) (dealers_data : list Load.raw_dealer)
         df start_date end_date provinces low high dealer,
    dealer <> All_Dealers ->
    let filtered_df :=
      Filter.filter_data df start_date end_date provinces (low, high) dealer in
    (Insights.dealer_insights polarity dealers_data filtered_df dealer
     = Insights.IndexError <-> filtered_df = [])
    /\ forall first rest,
         filtered_df = first :: rest ->
         Insights.dealer_insights polarity dealers_data filtered_df dealer
         = Insights.Details (Rating first) (Total_Reviews first)
             (Sentiment.analyze_sentiment polarity (Insights.reviews_of dealers_data dealer))
             (firstn 5 (Insights.reviews_of dealers_data dealer))
         /\ Dealer first = dealer
         /\ (low <=? Rating first)%float = true
         /\ (Rating first <=? high)%float = true.
Proof.
  intros polarity dealers_data df start_date end_date provinces low high dealer Hne
         filtered_df.
  pose proof (filtered_by_name df start_date end_date provinces low high dealer Hne)
    as Hsame. cbv zeta in Hsame. fold filtered_df in Hsame.
  unfold Insights.dealer_insights.
  apply String.eqb_neq in Hne. rewrite Hne. simpl negb. cbv iota. rewrite Hsame.
  split.
  - destruct filtered_df; split; intros H; try reflexivity; discriminate.
  - intros first rest Heq.
    assert (Hin : In first filtered_df) by (rewrite Heq; now left).
    rewrite Heq. split; [reflexivity |].
    subst filtered_df. rewrite filter_data_unfold in Hin. apply filter_In in Hin.
    destruct Hin as [_ Hm]. apply spec_matchesb_iff in Hm.
    destruct Hm as [[Hl Hh] [_ Hname]].
    repeat split; try assumption. apply Hname. now apply String.eqb_neq.
Qed.

Lemma dealer_insights_on_filtered_witness :
  "Lake Motors" <> All_Dealers
  /\ let filtered_df :=
       Filter.filter_data (Load.load raw_dealers) (mkdate 2022 1 1) (mkdate 2024 1 1)
         ["ON"; "BC"; "Unknown"] (3.0, 5.0)%float "Lake Motors" in
     (Insights.dealer_insights mild_scorer raw_dealers filtered_df "Lake Motors"
      = Insights.IndexError <-> filtered_df = [])
     /\ forall first rest,
          filtered_df = first :: rest ->
          Insights.dealer_insights mild_scorer raw_dealers filtered_df "Lake Motors"
          = Insights.Details (Rating first) (Total_Reviews first)
              (Sentiment.analyze_sentiment mild_scorer
                 (Insights.reviews_of raw_dealers "Lake Motors"))
              (firstn 5 (Insights.reviews_of raw_dealers "Lake Motors"))
          /\ Dealer first = "Lake Motors"
          /\ (3.0 <=? Rating first)%float = true
          /\ (Rating first <=? 5.0)%float = true.
Proof.
  split; [discriminate |].
  apply (dealer_insights_on_filtered mild_scorer raw_dealers (Load.load raw_dealers)
           (mkdate 2022 1 1) (mkdate 2024 1 1) ["ON"; "BC"; "Unknown"]
           3.0%float 5.0%float "Lake Motors").
  discriminate.
Defined.

(** X15: whenever the insights tab shows details, they are those of a row
    of the filtered table with the selected name; the reviews listed are
    the first ones of that dealer in the input file, five at most; and the
    sentiment tally covers every review of the dealer: its three counts
    add up to the number of review times that the loaded table holds for
    the rows of that name. *)
Theorem dealer_insights_details :
  forall (polarity : string -> float) (dealers_data : list Load.raw_dealer)
         (filtered_df : DataFrame) (dealer_filter : string)
         (rating : float) (total_reviews : Z) (sentiments : Sentiment.summary)
         (shown_reviews : list string),
    Insights.dealer_insights polarity dealers_data filtered_df dealer_filter
    = Insights.Details rating total_reviews sentiments shown_reviews ->
    (exists r, In r filtered_df /\ Dealer r = dealer_filter
               /\ Rating r = rating /\ Total_Reviews r = total_reviews)
    /\ (List.length shown_reviews <= 5)%nat
    /\ (exists more, Insights.reviews_of dealers_data dealer_filter = shown_reviews ++ more)
    /\ (Sentiment.n_positive sentiments + Sentiment.n_neutral sentiments
        + Sentiment.n_negative sentiments
        = List.length
            (List.concat
               (map ReviewTime
                    (filter (fun r => String.eqb (Dealer r) dealer_filter)
                            (Load.load dealers_data)))))%nat.
Proof.
  intros polarity dealers_data filtered_df dealer_filter rating total_reviews
         sentiments shown_reviews.
  unfold Insights.dealer_insights.
  destruct (negb (String.eqb dealer_filter All_Dealers)); [| discriminate].
  destruct (filter (fun r => String.eqb (Dealer r) dealer_filter) filtered_df)
    as [| first rest] eqn:Hsel; [discriminate |].
  intros H.
  pose proof (f_equal (fun i => match i with
                                | Insights.Details x _ _ _ => x
                                | _ => rating
                                end) H) as Hrating.
  pose proof (f_equal (fun i => match i with
                                | Insights.Details _ x _ _ => x
                                | _ => total_reviews
                                end) H) as Htotal.
  pose proof (f_equal (fun i => match i with
                                | Insights.Details _ _ x _ => x
                                | _ => sentiments
                                end) H) as Hsentiments.
  pose proof (f_equal (fun i => match i with
                                | Insights.Details _ _ _ x => x
                                | _ => shown_reviews
                                end) H) as Hshown.
  cbv beta iota in Hrating, Htotal, Hsentiments, Hshown. clear H.
  subst rating total_reviews sentiments shown_reviews.
  assert (Hin : In first (filter (fun r => String.eqb (Dealer r) dealer_filter) filtered_df))
    by (rewrite Hsel; now left).
  apply filter_In in Hin. destruct Hin as [Hin Hname]. apply String.eqb_eq in Hname.
  split; [exists first; repeat split; assumption |].
  split; [apply firstn_le_length |].
  split.
  - exists (skipn 5 (Insights.reviews_of dealers_data dealer_filter)).
    symmetry. apply firstn_skipn.
  - rewrite analyze_sentiment_counts. simpl.
    rewrite classified_total. apply reviews_of_length.
Qed.

Lemma dealer_insights_details_witness :
  (exists r, In r (Load.load raw_dealers) /\ Dealer r = "North Motors"
             /\ Rating r = 3.5%float /\ Total_Reviews r = 7%Z)
  /\ (List.length ["one"; "two"; "three"; "four"; "five"] <= 5)%nat
  /\ (exists more,
         Insights.reviews_of raw_dealers "North Motors"
         = ["one"; "two"; "three"; "four"; "five"] ++ more)
  /\ (Sentiment.n_positive (Sentiment.mksummary 7 0 0)
      + Sentiment.n_neutral (Sentiment.mksummary 7 0 0)
      + Sentiment.n_negative (Sentiment.mksummary 7 0 0)
      = List.length
          (List.concat
             (map ReviewTime
                  (filter (fun r => String.eqb (Dealer r) "North Motors")
                          (Load.load raw_dealers)))))%nat.
Proof.
  apply (dealer_insights_details mild_scorer raw_dealers (Load.load raw_dealers)
           "North Motors" 3.5%float 7%Z (Sentiment.mksummary 7 0 0)
           ["one"; "two"; "three"; "four"; "five"]).
  vm_compute. reflexivity.
Defined.

Section MapFacts.

Import DealerMap.

Lemma dealer_map_In (filtered_df : DataFrame) (m : marker) :
  In m (dealer_map filtered_df) <-> exists r, In r filtered_df /\ marker_of r = Some m.
Proof.
  induction filtered_df as [| r rest IH]; simpl.
  - split; [intros [] | intros [r [[] _]]].
  - destruct (marker_of r) as [m' |] eqn:Hm; simpl; rewrite IH; split.
    + intros [<- | [r' [Hin Hr']]]; [exists r; split; [now left | assumption] |].
      exists r'. split; [now right | assumption].
    + intros [r' [[<- | Hin] Hr']]; [left; congruence | right; now exists r'].
    + intros [r' [Hin Hr']]. exists r'. split; [now right | assumption].
    + intros [r' [[<- | Hin] Hr']]; [congruence | now exists r'].
Qed.

Lemma marker_of_Some (r : row) (m : marker) :
  marker_of r = Some m ->
  Latitude r = Some (fst (location m)) /\ Longitude r = Some (snd (location m))
  /\ popup_dealer m = Dealer r /\ popup_rating m = Rating r
  /\ icon m = icon_color (Rating r).
Proof.
  unfold marker_of. destruct (Latitude r) as [lat |]; [| discriminate].
  destruct (Longitude r) as [lng |]; [| discriminate].
  intros H. injection H as <-. repeat split.
Qed.

End MapFacts.

(** X16: every marker of the map drawn for a filtered table stands for
    one of the filtered rows that has both coordinates, at those
    coordinates and with that dealer's name and rating; when the lower
    bound of the rating range is 4 or more every marker is blue, and when
    the upper bound is not 4 or more every marker is red. *)
Theorem dealer_map_markers :
  forall df start_date end_date provinces low high dealer (m : DealerMap.marker),
    In m (DealerMap.dealer_map
            (Filter.filter_data df start_date end_date provinces (low, high) dealer)) ->
    (exists r,
        In r (Filter.filter_data df start_date end_date provinces (low, high) dealer)
        /\ Latitude r = Some (fst (DealerMap.location m))
        /\ Longitude r = Some (snd (DealerMap.location m))
        /\ DealerMap.popup_dealer m = Dealer r
        /\ DealerMap.popup_rating m = Rating r)
    /\ ((4 <=? low)%float = true -> DealerMap.icon m = DealerMap.blue)
    /\ ((4 <=? high)%float = false -> DealerMap.icon m = DealerMap.red).
Proof.
  intros df start_date end_date provinces low high dealer m Hin.
  apply dealer_map_In in Hin. destruct Hin as [r [Hr Hm]].
  destruct (marker_of_Some r m Hm) as [Hlat [Hlng [Hname [Hrating Hicon]]]].
  split; [exists r; repeat split; assumption |].
  pose proof Hr as Hsel. rewrite filter_data_unfold in Hsel. apply filter_In in Hsel.
  destruct Hsel as [_ Hsel]. apply spec_matchesb_bounds in Hsel.
  destruct Hsel as [Hl [Hh _]].
  rewrite Hicon. unfold DealerMap.icon_color. split.
  - intros H4. now rewrite (leb_trans _ _ _ H4 Hl).
  - intros H4. destruct (4 <=? Rating r)%float eqn:Hr4; [| reflexivity].
    rewrite (leb_trans _ _ _ Hr4 Hh) in H4. discriminate.
Qed.

Lemma dealer_map_markers_witness :
  (exists r,
      In r (Filter.filter_data (Load.load raw_dealers) (mkdate 2022 1 1) (mkdate 2024 1 1)
              ["ON"; "BC"] (1.0, 3.9)%float All_Dealers)
      /\ Latitude r = Some 45.42%float
      /\ Longitude r = Some (-75.70)%float
      /\ "North Motors" = Dealer r
      /\ 3.5%float = Rating r)
  /\ ((4 <=? 1.0)%float = true -> DealerMap.red = DealerMap.blue)
  /\ ((4 <=? 3.9)%float = false -> DealerMap.red = DealerMap.red).
Proof.
  apply (dealer_map_markers (Load.load raw_dealers) (mkdate 2022 1 1) (mkdate 2024 1 1)
           ["ON"; "BC"] 1.0%float 3.9%float All_Dealers
           (DealerMap.mkmarker (45.42, -75.70)%float "North Motors" 3.5%float DealerMap.red)).
  vm_compute. now left.
Defined.



(** X18: the enrichment loop never takes a dealer off the map: a marker
    that the table has before the loop (a row with both coordinates at
    load) is a marker of the table after the loop, whatever the geocoding
    service answers and even when the loop stops on an exception. *)
Theorem enrichment_keeps_markers :
  forall (geocoding_api : nat -> Geocode.postal -> Geocode.api_reply)
         (clock : nat -> Q * Q) (df : DataFrame) (w : Geocode.world)
         (m : DealerMap.marker),
    In m (DealerMap.dealer_map df) ->
    In m (DealerMap.dealer_map (fst (fst (Geocode.enrich geocoding_api clock df w)))).
Proof.
  intros api clock df w m Hin. unfold Geocode.enrich.
  pose proof (enrich_from_frame api clock df 0%nat w) as Hframe.
  destruct (Geocode.enrich_from api clock 0 df w) as [[df' w'] e]. simpl.
  destruct Hframe as [Hrows _].
  apply dealer_map_In in Hin. destruct Hin as [r [Hr Hm]].
  apply dealer_map_In. exists r. split; [| assumption].
  destruct (In_nth_error _ _ Hr) as [i Hi].
  destruct (Forall2_nth_error_l _ _ _ Hrows i r Hi) as [r' [Hi' Hstep]].
  destruct Hstep as [-> | [Habs _]].
  - eapply nth_error_In. exact Hi'.
  - destruct (marker_of_Some r m Hm) as [Hlat _]. rewrite Hlat in Habs. discriminate.
Qed.

Lemma enrichment_keeps_markers_witness :
  In (DealerMap.mkmarker (45.42, -75.70)%float "North Motors" 3.5%float DealerMap.red)
     (DealerMap.dealer_map
        (fst (fst (Geocode.enrich api_down clock_by_ten
                     [located_row; unlocated_row] Geocode.initial_world)))).
Proof.
  apply (enrichment_keeps_markers api_down clock_by_ten [located_row; unlocated_row]
           Geocode.initial_world).
  now left.
Defined.
